(** * rocket-config: the [Config] class of [build/index.js]

    A shallow embedding of the configuration loader: JavaScript values as a
    tree of tagged nodes, the path accessor [get], [deepFreeze], the file
    loader and the load life cycle of a [Config] instance as a state-passing
    machine, followed by the properties of the specification. *)

From Stdlib Require Import String Ascii List Bool ZArith Arith Lia.
Import ListNotations.
Open Scope string_scope.

(** ** Outcomes of fallible code *)

(** What the code throws, or rejects a promise with. *)
Inductive error : Type :=
| NotReady                          (* 'Configuration not loaded yet. ...' *)
| GlobalNotSet                      (* 'Global configuration not set. ...' *)
| GlobalNotReady                    (* 'Global configuration not loaded yet. ...' *)
| UnsupportedFormat (ext : string)  (* `Unsupported file extension: ${extension}` *)
| ReadFailure (reason : string)     (* fs.readFile rejected *)
| DecodeFailure (reason : string)   (* JSON.parse, yaml.parse, toml.parse or import() failed *)
| TypeError (reason : string).      (* raised by the engine itself *)

Inductive result (A : Type) : Type :=
| Ok (a : A)
| Err (e : error).

Arguments Ok {A} a.
Arguments Err {A} e.

Definition bind {A B : Type} (r : result A) (k : A -> result B) : result B :=
  match r with
  | Ok a => k a
  | Err e => Err e
  end.

Notation "x <- r ;; k" := (bind r (fun x => k))
  (at level 61, r at next level, right associativity).

Definition is_ok {A : Type} (r : result A) : bool :=
  match r with Ok _ => true | Err _ => false end.

(** ** JavaScript values

    Objects and arrays carry the identity of the heap cell they live in
    ([addr]) and its frozen flag; [===] on them compares identities.  An
    object is its list of own enumerable properties in insertion order.
    Numbers are the integers.  Members inherited from the built-in
    prototypes ([constructor], [toString], ...) are no nodes of the tree:
    they are what the runtime answers for a name that is no own property,
    see [Engine] below. *)

Unset Elimination Schemes.
Inductive value : Type :=
| VUndefined
| VNull
| VBool (b : bool)
| VNum (n : Z)
| VStr (s : string)
| VArr (addr : nat) (frozen : bool) (elems : list value)
| VObj (addr : nat) (frozen : bool) (fields : list (string * value)).
Set Elimination Schemes.

Section ValueInduction.
Variable P : value -> Prop.
Hypothesis Hundef : P VUndefined.
Hypothesis Hnull : P VNull.
Hypothesis Hbool : forall b, P (VBool b).
Hypothesis Hnum : forall n, P (VNum n).
Hypothesis Hstr : forall s, P (VStr s).
Hypothesis Harr : forall a fr l, Forall P l -> P (VArr a fr l).
Hypothesis Hobj : forall a fr l, Forall (fun kv => P (snd kv)) l -> P (VObj a fr l).

Fixpoint value_ind (v : value) : P v :=
  match v with
  | VUndefined => Hundef
  | VNull => Hnull
  | VBool b => Hbool b
  | VNum n => Hnum n
  | VStr s => Hstr s
  | VArr a fr l =>
      Harr a fr l
        ((fix elems_ind (l : list value) : Forall P l :=
            match l with
            | [] => Forall_nil P
            | x :: r => Forall_cons x (value_ind x) (elems_ind r)
            end) l)
  | VObj a fr l =>
      Hobj a fr l
        ((fix fields_ind (l : list (string * value))
            : Forall (fun kv => P (snd kv)) l :=
            match l with
            | [] => Forall_nil _
            | kv :: r =>
                Forall_cons (P := fun kv => P (snd kv)) kv
                  (value_ind (snd kv)) (fields_ind r)
            end) l)
  end.
End ValueInduction.

(** [typeof v === 'object'] (true of [null] as well). *)
Definition typeof_object (v : value) : bool :=
  match v with
  | VNull | VArr _ _ _ | VObj _ _ _ => true
  | _ => false
  end.

(** [Object.isFrozen(v)]: a value that is not an object counts as frozen. *)
Definition isFrozen (v : value) : bool :=
  match v with
  | VArr _ fr _ | VObj _ fr _ => fr
  | _ => true
  end.

(** [Boolean(v)]. *)
Definition truthy (v : value) : bool :=
  match v with
  | VUndefined | VNull => false
  | VBool b => b
  | VNum n => negb (Z.eqb n 0)
  | VStr s => negb (String.eqb s "")
  | VArr _ _ _ | VObj _ _ _ => true
  end.

(** [a === b]. *)
Definition strict_eq (a b : value) : bool :=
  match a, b with
  | VUndefined, VUndefined => true
  | VNull, VNull => true
  | VBool x, VBool y => Bool.eqb x y
  | VNum x, VNum y => Z.eqb x y
  | VStr x, VStr y => String.eqb x y
  | VArr x _ _, VArr y _ _ => Nat.eqb x y
  | VObj x _ _, VObj y _ _ => Nat.eqb x y
  | _, _ => false
  end.

Definition is_undefined (v : value) : bool :=
  match v with VUndefined => true | _ => false end.

Definition is_nullish (v : value) : bool :=
  match v with VUndefined | VNull => true | _ => false end.

(** ** Property access *)

Fixpoint lookup (k : string) (l : list (string * value)) : option value :=
  match l with
  | [] => None
  | (k', v) :: r => if String.eqb k k' then Some v else lookup k r
  end.

Definition has_key (k : string) (l : list (string * value)) : bool :=
  match lookup k l with Some _ => true | None => false end.

Definition is_digit (c : ascii) : bool :=
  let n := nat_of_ascii c in Nat.leb 48 n && Nat.leb n 57.

Fixpoint digits_value (acc : nat) (s : string) : option nat :=
  match s with
  | EmptyString => Some acc
  | String c r =>
      if is_digit c
      then digits_value (10 * acc + (nat_of_ascii c - 48)) r
      else None
  end.

(** A property key that is an array index: a canonical decimal numeral. *)
Definition array_index (s : string) : option nat :=
  match s with
  | EmptyString => None
  | String "0" EmptyString => Some 0
  | String "0" _ => None
  | _ => digits_value 0 s
  end.

Definition char_at (s : string) (i : nat) : value :=
  match String.get i s with
  | Some c => VStr (String c EmptyString)
  | None => VUndefined
  end.

(** *** Members inherited from the runtime

    A property read that finds no own property goes up the prototype chain
    and ends in the objects of the runtime: the built-in prototypes and the
    functions behind them.  These are no data of a tree; a read can reach
    them, or be refused by them. *)

(** What a traversal holds: a value of the tree, or an object of the
    runtime, known by a number. *)
Inductive reached : Type :=
| Data (v : value)
| Host (h : nat).

(** The outcome of a read answered by the runtime. *)
Inductive read : Type :=
| Found (r : reached)
| Thrown (reason : string).

Definition is_letter (c : ascii) : bool :=
  let n := nat_of_ascii c in
  (Nat.leb 65 n && Nat.leb n 90) || (Nat.leb 97 n && Nat.leb n 122).

Definition name_char (c : ascii) : bool :=
  is_letter c || is_digit c || Ascii.eqb c "_" || Ascii.eqb c "$".

Fixpoint name_chars (s : string) : bool :=
  match s with
  | EmptyString => true
  | String c r => name_char c && name_chars r
  end.

(** A key that can name a member of a built-in object: letters, digits,
    underscores and dollar signs, not starting with a digit. *)
Definition member_name (key : string) : bool :=
  match key with
  | EmptyString => false
  | String c _ => negb (is_digit c) && name_chars key
  end.

(** The runtime, as far as [get] meets it: what a value inherits under a
    key it has no own property for, and what an object of the runtime
    answers under a key.  The built-in objects of a realm that has not been
    tampered with have members under names only. *)
Record Engine : Type := {
  inherited : value -> string -> read;
  host_member : nat -> string -> read;
  inherited_names :
    forall v key, member_name key = false ->
                  inherited v key = Found (Data VUndefined)
}.

Definition of_read (r : read) : result reached :=
  match r with
  | Found x => Ok x
  | Thrown reason => Err (TypeError reason)
  end.

(** [res[key]] on a value of the tree: throws on [null] and [undefined],
    answers an own property when there is one, and what the value inherits
    otherwise. *)
Definition getProp (E : Engine) (res : value) (key : string)
  : result reached :=
  match res with
  | VUndefined => Err (TypeError "Cannot read properties of undefined")
  | VNull => Err (TypeError "Cannot read properties of null")
  | VBool _ | VNum _ => of_read (inherited E res key)
  | VStr s =>
      match array_index key with
      | Some i =>
          if Nat.ltb i (String.length s) then Ok (Data (char_at s i))
          else of_read (inherited E res key)
      | None =>
          if String.eqb key "length"
          then Ok (Data (VNum (Z.of_nat (String.length s))))
          else of_read (inherited E res key)
      end
  | VArr _ _ l =>
      match array_index key with
      | Some i =>
          if Nat.ltb i (List.length l) then Ok (Data (nth i l VUndefined))
          else of_read (inherited E res key)
      | None =>
          if String.eqb key "length"
          then Ok (Data (VNum (Z.of_nat (List.length l))))
          else of_read (inherited E res key)
      end
  | VObj _ _ l =>
      match lookup key l with
      | Some v => Ok (Data v)
      | None => of_read (inherited E res key)
      end
  end.

(** [Boolean(r)], [r === undefined] and [r === obj] for what a traversal
    holds; an object of the runtime is no value of the tree. *)
Definition truthy_reached (r : reached) : bool :=
  match r with Data v => truthy v | Host _ => true end.

Definition undefined_reached (r : reached) : bool :=
  match r with Data v => is_undefined v | Host _ => false end.

Definition identical (r : reached) (obj : value) : bool :=
  match r with Data v => strict_eq v obj | Host _ => false end.

(** ** The path accessor [get] *)

(** [String.prototype.split.call(path, regexp)] for a regexp that matches
    exactly one character of a class: [/[,[\]]+?/] and [/[,[\].]+?/] are
    lazy, so every delimiter character is a separator of its own and
    neighbouring delimiters leave empty strings in the result. *)
Fixpoint split_on (delim : ascii -> bool) (s : string) : list string :=
  match s with
  | EmptyString => [EmptyString]
  | String c r =>
      if delim c then EmptyString :: split_on delim r
      else
        match split_on delim r with
        | h :: t => String c h :: t
        | [] => [String c EmptyString]
        end
  end.

(** The class of [/[,[\]]+?/]. *)
Definition primary_delim (c : ascii) : bool :=
  Ascii.eqb c "," || Ascii.eqb c "[" || Ascii.eqb c "]".

(** The class of [/[,[\].]+?/]. *)
Definition dotted_delim (c : ascii) : bool :=
  primary_delim c || Ascii.eqb c ".".

(** [.filter(Boolean)] on strings. *)
Definition nonempty (s : string) : bool := negb (String.eqb s "").

Definition segments (delim : ascii -> bool) (path : string) : list string :=
  filter nonempty (split_on delim path).

(** The reducer: [res !== null && res !== undefined ? res[key] : res]. *)
Definition step (E : Engine) (res : reached) (key : string) : result reached :=
  match res with
  | Data v => if is_nullish v then Ok res else getProp E v key
  | Host h => of_read (host_member E h key)
  end.

(** [.reduce(step, obj)]. *)
Fixpoint reduce (E : Engine) (keys : list string) (res : reached)
  : result reached :=
  match keys with
  | [] => Ok res
  | key :: rest => r <- step E res key ;; reduce E rest r
  end.

Definition travel (E : Engine) (delim : ascii -> bool) (obj : value)
  (path : string) : result reached :=
  reduce E (segments delim path) (Data obj).

(** [function get(obj, path, defaultValue)]. *)
Definition get (E : Engine) (obj : value) (path : string)
  (defaultValue : value) : result reached :=
  r1 <- travel E primary_delim obj path ;;
  result <- (if truthy_reached r1 then Ok r1
             else travel E dotted_delim obj path) ;;
  Ok (if undefined_reached result || identical result obj
      then Data defaultValue else result).

(** ** [deepFreeze] *)

(** The loop of [deepFreeze] and its final [Object.freeze(obj)], on an
    [obj] that [Object.values] accepts: a property value is entered only
    when it is an object that is not frozen yet, and [obj] itself ends up
    frozen.  The values of a string are its characters, which are not
    objects. *)
Fixpoint freeze_walk (obj : value) : value :=
  match obj with
  | VArr a _ l =>
      VArr a true
        (map (fun value =>
                if typeof_object value && negb (isFrozen value)
                then freeze_walk value else value) l)
  | VObj a _ l =>
      VObj a true
        (map (fun kv =>
                (fst kv,
                 if typeof_object (snd kv) && negb (isFrozen (snd kv))
                 then freeze_walk (snd kv) else snd kv)) l)
  | _ => obj
  end.

(** [function deepFreeze(obj)]: [Object.values(obj)] throws on [null] and
    [undefined]; the object is updated in place, here the updated tree is
    returned. *)
Definition deepFreeze (obj : value) : result value :=
  if is_nullish obj
  then Err (TypeError "Cannot convert undefined or null to object")
  else Ok (freeze_walk obj).

(** The objects [deepFreeze(obj)] freezes: [obj] itself and, through the
    property values it enters, theirs. *)
Fixpoint frozen_by (obj : value) : list nat :=
  match obj with
  | VArr a _ l =>
      a :: flat_map (fun value =>
                       if typeof_object value && negb (isFrozen value)
                       then frozen_by value else []) l
  | VObj a _ l =>
      a :: flat_map (fun kv =>
                       if typeof_object (snd kv) && negb (isFrozen (snd kv))
                       then frozen_by (snd kv) else []) l
  | _ => []
  end.

(** [Object.freeze] works on the object itself: once the objects at [addrs]
    are frozen, they are frozen wherever a value holds them. *)
Fixpoint freeze_in_place (addrs : list nat) (v : value) : value :=
  match v with
  | VArr a fr l =>
      VArr a (fr || existsb (Nat.eqb a) addrs)
        (map (freeze_in_place addrs) l)
  | VObj a fr l =>
      VObj a (fr || existsb (Nat.eqb a) addrs)
        (map (fun kv => (fst kv, freeze_in_place addrs (snd kv))) l)
  | _ => v
  end.

(** ** [merge]

    [merge] is [createMerger({ priority: 'right' })] of the package [smob],
    whose code is not part of this repository. *)

Section MergeFields.
Variable rec : value -> value -> nat -> value * nat.
Variable fh : list (string * value).

(** Modelled from the spec: the entries of the lower-priority map [fl] after
    the merge with the higher-priority map [fh], in the order of [fl]; [rec]
    merges the two values of a key that both maps have (the code of [smob]
    is missing). *)
Fixpoint merge_fields (fl : list (string * value)) (next : nat)
  : list (string * value) * nat :=
  match fl with
  | [] => ([], next)
  | (k, vl) :: r =>
      let '(v, n1) :=
        match lookup k fh with
        | Some vh => rec vl vh next
        | None => (vl, next)
        end in
      let '(r', n2) := merge_fields r n1 in
      ((k, v) :: r', n2)
  end.
End MergeFields.

(** Modelled from the spec: the merge of a lower-priority value [lo] with a
    higher-priority value [hi] (the code of [smob] is missing).  Two maps
    are merged key by key into a new map, allocated at [next]; in every
    other case [hi] replaces [lo] wholesale.  The second component is the
    next free address. *)
Fixpoint merge2 (lo hi : value) (next : nat) {struct lo} : value * nat :=
  match lo, hi with
  | VObj _ _ fl, VObj _ _ fh =>
      let '(merged, n) := merge_fields merge2 fh fl (S next) in
      (VObj next false
         (merged ++ filter (fun kv => negb (has_key (fst kv) fl)) fh), n)
  | _, _ => (hi, next)
  end.

(** Modelled from the spec: the sources merged one after the other into
    [acc], each with priority over what came before it (the code of [smob]
    is missing). *)
Fixpoint merge_from (acc : value) (sources : list value) (next : nat)
  : value * nat :=
  match sources with
  | [] => (acc, next)
  | s :: r => let '(acc', n) := merge2 acc s next in merge_from acc' r n
  end.

(** Modelled from the spec: [merge(...resolvedSources)], the resolved values
    merged in source order into a tree made for this call, later sources
    having priority. *)
Definition merge (resolvedSources : list value) (next : nat) : value :=
  fst (merge_from (VObj next false []) resolvedSources (S next)).

(** ** The collaborators: file reads and format decoders *)

(** What [import(...)] delivers as [module.default]: a value, or a function
    together with the outcome of calling it without arguments. *)
Inductive moduleDefault : Type :=
| DefaultValue (v : value)
| DefaultFunction (call : result value).

Record World : Type := {
  readFile : string -> result string;       (* fs.readFile(p), then toString() *)
  JSON_parse : string -> result value;
  yaml_parse : string -> result value;
  toml_parse : string -> result value;
  import : string -> result moduleDefault   (* import(url), by its url *)
}.

(** [filePath.split('.').pop()]. *)
Definition extension (filePath : string) : string :=
  last (split_on (Ascii.eqb ".") filePath) "".

(** [async loadFromFile(filePath)].  The promise chain of the 'js' case ends
    in a [catch] that answers a new empty object, allocated at [addr]. *)
Definition loadFromFile (w : World) (addr : nat) (filePath : string)
  : result value :=
  fileContent <- readFile w filePath ;;
  let extension := extension filePath in
  if String.eqb extension "json" then JSON_parse w fileContent
  else if String.eqb extension "yaml" || String.eqb extension "yml"
  then yaml_parse w fileContent
  else if String.eqb extension "toml" then toml_parse w fileContent
  else if String.eqb extension "js" then
    match
      (module <- import w ("data:text/javascript," ++ fileContent) ;;
       match module with
       | DefaultFunction call => call
       | DefaultValue v => Ok v
       end)
    with
    | Ok parsedContent => Ok parsedContent
    | Err _ => Ok (VObj addr false [])
    end
  else Err (UnsupportedFormat extension).

(** ** The [Config] instance *)

(** The pending promise of a load pass: its identity, and the sources the
    executor walked over when the pass was started. *)
Record Pending : Type := {
  handle : nat;
  loadingSources : list value
}.

(** The fields of a [Config], and a count of the load passes started so far
    (it also names the promises). *)
Record Config : Type := {
  ready : bool;
  loadConfigsPromise : option Pending;
  mergedConfigs : value;
  _sources : list value;
  fanouts : nat
}.

(** The getters [isReady], [config] and [sources]. *)
Definition isReady (c : Config) : bool := ready c.
Definition config (c : Config) : value := mergedConfigs c.
Definition sources (c : Config) : list value := _sources c.

(** [constructor(defaultConfig = {}, ...sources)]; the two object literals
    are allocated at [addr] and [addr + 1]. *)
Definition Config_new (addr : nat) (defaultConfig : value)
  (sources : list value) : Config :=
  {| ready := false;
     loadConfigsPromise := None;
     mergedConfigs := VObj addr false [];
     _sources :=
       (match defaultConfig with
        | VUndefined => VObj (S addr) false []
        | v => v
        end) :: sources;
     fanouts := 0 |}.

(** [get(path, defaultValue)] of the class. *)
Definition Config_get (E : Engine) (c : Config) (path : string)
  (defaultValue : value) : result reached :=
  if negb (ready c) then Err NotReady
  else if String.eqb path "" then Ok (Data (mergedConfigs c))
  else get E (mergedConfigs c) path defaultValue.

(** One entry of [loadingSources]: a string is a file to load, anything else
    is its own value. *)
Definition resolve (w : World) (addr : nat) (source : value) : result value :=
  match source with
  | VStr filePath => loadFromFile w addr filePath
  | _ => Ok source
  end.

Fixpoint resolve_from (w : World) (addr : nat) (l : list value)
  : list (result value) :=
  match l with
  | [] => []
  | source :: r => resolve w addr source :: resolve_from w (S addr) r
  end.

(** [Promise.all]: all the values, or the reason of a rejected entry. *)
Fixpoint Promise_all (l : list (result value)) : result (list value) :=
  match l with
  | [] => Ok []
  | r :: t => v <- r ;; vs <- Promise_all t ;; Ok (v :: vs)
  end.

(** [loadConfigs()]: the pending promise when there is one, else a new pass
    over the current sources.  Answers the promise by its identity. *)
Definition loadConfigs (c : Config) : Config * nat :=
  match loadConfigsPromise c with
  | Some p => (c, handle p)
  | None =>
      ({| ready := ready c;
          loadConfigsPromise :=
            Some {| handle := fanouts c; loadingSources := sources c |};
          mergedConfigs := mergedConfigs c;
          _sources := _sources c;
          fanouts := S (fanouts c) |},
       fanouts c)
  end.

(** The [then] handler of [Promise.all]: merge, freeze, mark ready.  The
    merged tree holds the very objects of the sources where it took a value
    over, so the objects [deepFreeze] freezes are frozen in the sources as
    well.  An exception of [deepFreeze] leaves the assignment of
    [mergedConfigs] behind. *)
Definition publish (c : Config) (resolvedSources : list value) (addr : nat)
  : Config * result unit :=
  let merged := merge resolvedSources addr in
  match deepFreeze merged with
  | Ok frozen =>
      let addrs := frozen_by merged in
      ({| ready := true;
          loadConfigsPromise := loadConfigsPromise c;
          mergedConfigs := freeze_in_place addrs frozen;
          _sources := map (freeze_in_place addrs) (_sources c);
          fanouts := fanouts c |}, Ok tt)
  | Err reason =>
      ({| ready := ready c;
          loadConfigsPromise := loadConfigsPromise c;
          mergedConfigs := merged;
          _sources := _sources c;
          fanouts := fanouts c |}, Err reason)
  end.

(** The [finally] handler. *)
Definition clear_pending (c : Config) : Config :=
  {| ready := ready c;
     loadConfigsPromise := None;
     mergedConfigs := mergedConfigs c;
     _sources := _sources c;
     fanouts := fanouts c |}.

(** The pending pass settles in world [w], objects being allocated from
    [addr] on: the promise that settles and its outcome, or nothing when no
    pass is pending. *)
Definition settle (w : World) (addr : nat) (c : Config)
  : Config * option (nat * result unit) :=
  match loadConfigsPromise c with
  | None => (c, None)
  | Some p =>
      match Promise_all (resolve_from w addr (loadingSources p)) with
      | Ok resolvedSources =>
          let '(c', outcome) :=
            publish c resolvedSources (addr + List.length (loadingSources p)) in
          (clear_pending c', Some (handle p, outcome))
      | Err reason => (clear_pending c, Some (handle p, Err reason))
      end
  end.

Definition with_sources (c : Config) (l : list value) : Config :=
  {| ready := ready c;
     loadConfigsPromise := loadConfigsPromise c;
     mergedConfigs := mergedConfigs c;
     _sources := l;
     fanouts := fanouts c |}.

(** [async addSource(...newSources)], up to its [await]: the promise it
    waits for, if any. *)
Definition addSource (c : Config) (newSources : list value)
  : Config * option nat :=
  let c1 := with_sources c (sources c ++ newSources) in
  if ready c1
  then let '(c2, h) := loadConfigs c1 in (c2, Some h)
  else (c1, None).

(** [Array.prototype.indexOf], by [===]; -1 when there is no such entry. *)
Fixpoint indexOf (l : list value) (x : value) : Z :=
  match l with
  | [] => (-1)%Z
  | y :: r =>
      if strict_eq y x then 0%Z
      else let i := indexOf r x in if (i <? 0)%Z then (-1)%Z else (i + 1)%Z
  end.

(** [l.splice(index, 1)]. *)
Fixpoint splice1 (index : nat) (l : list value) : list value :=
  match l, index with
  | [], _ => []
  | _ :: r, O => r
  | y :: r, S i => y :: splice1 i r
  end.

(** [async removeSource(source)], up to its [await]. *)
Definition removeSource (c : Config) (source : value) : Config * option nat :=
  let index := indexOf (sources c) source in
  let c1 :=
    if (index >=? 0)%Z
    then with_sources c (splice1 (Z.to_nat index) (sources c))
    else c in
  if ready c1
  then let '(c2, h) := loadConfigs c1 in (c2, Some h)
  else (c1, None).

(** ** The global instance *)

Record Global : Type := { _globalConfig : option Config }.

(** [static set globalConfig(config)]. *)
Definition set_globalConfig (g : Global) (config : Config) : Global :=
  {| _globalConfig := Some config |}.

(** [static get c()]. *)
Definition Config_c (g : Global) : result Config :=
  match _globalConfig g with
  | None => Err GlobalNotSet
  | Some c => if negb (isReady c) then Err GlobalNotReady else Ok c
  end.

(** [static async init(defaultConfig = {}, ...sources)], up to its [await]:
    the new instance takes the global slot, whatever [g] held, and its load
    is started. *)
Definition Config_init (g : Global) (addr : nat) (defaultConfig : value)
  (sources : list value) : Global * nat :=
  let installed := Config_new addr defaultConfig sources in
  let '(c, h) := loadConfigs installed in
  ({| _globalConfig := Some c |}, h).

(** The rest of [init], once the load of the installed instance settles:
    a rejection is rethrown by [await], otherwise [Config.c] is answered. *)
Definition Config_init_resume (w : World) (addr : nat) (g : Global)
  : Global * result Config :=
  match _globalConfig g with
  | None => (g, Err GlobalNotSet)
  | Some c =>
      let '(c', settled) := settle w addr c in
      let g' := {| _globalConfig := Some c' |} in
      match settled with
      | Some (_, Err reason) => (g', Err reason)
      | _ => (g', Config_c g')
      end
  end.

(** ** [deepFreeze] and immutability, as predicates *)

(** Every map and sequence of the tree is frozen. *)
Fixpoint deep_frozen (v : value) : bool :=
  match v with
  | VArr _ fr l => fr && forallb deep_frozen l
  | VObj _ fr l => fr && forallb (fun kv => deep_frozen (snd kv)) l
  | _ => true
  end.


(** ** The earlier revision of [loadConfigs]

    The repository also keeps an earlier build of the same file.  Its
    [loadConfigs] has no [finally] handler and does not freeze the merged
    tree; its file loader is left as a parameter here. *)
Module Legacy.
Section LoadConfigs.
Variable loadFromFile : string -> result value.

Definition resolve (source : value) : result value :=
  match source with
  | VStr filePath => loadFromFile filePath
  | _ => Ok source
  end.

(** The pending pass settles: no [deepFreeze], and no [finally]. *)
Definition settle (addr : nat) (c : Config)
  : Config * option (nat * result unit) :=
  match loadConfigsPromise c with
  | None => (c, None)
  | Some p =>
      match Promise_all (map resolve (loadingSources p)) with
      | Ok resolvedSources =>
          ({| ready := true;
              loadConfigsPromise := loadConfigsPromise c;
              mergedConfigs := merge resolvedSources addr;
              _sources := _sources c;
              fanouts := fanouts c |}, Some (handle p, Ok tt))
      | Err reason => (c, Some (handle p, Err reason))
      end
  end.
End LoadConfigs.
End Legacy.

(** ** Sample data *)

Definition num (n : Z) : value := VNum n.
Definition obj (addr : nat) (fields : list (string * value)) : value :=
  VObj addr false fields.
Definition arr (addr : nat) (elems : list value) : value :=
  VArr addr false elems.

(** A ready instance publishing [tree]. *)
Definition ready_with (tree : value) : Config :=
  {| ready := true;
     loadConfigsPromise := None;
     mergedConfigs := tree;
     _sources := [tree];
     fanouts := 1 |}.

(** [{ a: { b: [0, { c: 6 }] } }]. *)
Definition nested_tree : value :=
  VObj 1 true
    [("a", VObj 2 true
             [("b", VArr 3 true [num 0; VObj 4 true [("c", num 6)]])])].

(** [{ 'a.b': { 1: { '.c': 5 } }, a: { b: [0, { c: 6 }] } }]: a key that
    holds a dot. *)
Definition dotted_key_tree : value :=
  VObj 1 true
    [("a.b", VObj 5 true [("1", VObj 6 true [(".c", num 5)])]);
     ("a", VObj 2 true
             [("b", VArr 3 true [num 0; VObj 4 true [("c", num 6)]])])].

(** [{ a: Object.freeze({ b: {} }) }]: an inline source with a map frozen
    by its owner, holding a map that is not. *)
Definition shallow_frozen_source : value :=
  obj 1 [("a", VObj 2 true [("b", obj 3 [])])].

(** A world with a few files: two well-formed ones, a JSON file and a
    script that do not decode, a text file, and nothing else. *)
Definition sample_world : World :=
  {| readFile := fun p =>
       if String.eqb p "base.json" then Ok "J"
       else if String.eqb p "extra.js" then Ok "S"
       else if String.eqb p "broken.json" then Ok "B"
       else if String.eqb p "broken.js" then Ok "X"
       else if String.eqb p "notes.txt" then Ok "N"
       else Err (ReadFailure "ENOENT");
     JSON_parse := fun t =>
       if String.eqb t "J" then Ok (obj 10 [("host", VStr "localhost")])
       else Err (DecodeFailure "Unexpected token");
     yaml_parse := fun _ => Err (DecodeFailure "yaml");
     toml_parse := fun _ => Err (DecodeFailure "toml");
     import := fun url =>
       if String.eqb url "data:text/javascript,S"
       then Ok (DefaultFunction (Ok (obj 11 [("debug", VBool true)])))
       else Err (DecodeFailure "SyntaxError") |}.

(** An instance with a pending pass over [l], ready or not. *)
Definition pending_over (is_ready : bool) (tree : value) (l : list value)
  : Config :=
  {| ready := is_ready;
     loadConfigsPromise := Some {| handle := 3; loadingSources := l |};
     mergedConfigs := tree;
     _sources := l;
     fanouts := 4 |}.

(** ** Auxiliary notions for the statements *)

(** [n] calls of [loadConfigs] in a row, and the promises they answer. *)
Fixpoint calls (n : nat) (c : Config) : Config * list nat :=
  match n with
  | O => (c, [])
  | S m =>
      let '(c1, h) := loadConfigs c in
      let '(c2, hs) := calls m c1 in
      (c2, h :: hs)
  end.

(** What can happen to an instance: a call of one of its methods, or the
    pending pass settling in some world. *)
Inductive event : Type :=
| CallLoadConfigs
| CallAddSource (newSources : list value)
| CallRemoveSource (source : value)
| Settles (w : World) (addr : nat).

Definition fire (c : Config) (e : event) : Config :=
  match e with
  | CallLoadConfigs => fst (loadConfigs c)
  | CallAddSource newSources => fst (addSource c newSources)
  | CallRemoveSource source => fst (removeSource c source)
  | Settles w addr => fst (settle w addr c)
  end.

Definition run (c : Config) (es : list event) : Config := fold_left fire es c.

(** The list without its first entry identical ([===]) to [x]. *)
Fixpoint remove_first (x : value) (l : list value) : list value :=
  match l with
  | [] => []
  | y :: r => if strict_eq y x then r else y :: remove_first x r
  end.


Definition fields_of (v : value) : list (string * value) :=
  match v with VObj _ _ l => l | _ => [] end.

(** The extensions [loadFromFile] has a case for. *)
Definition recognized (ext : string) : bool :=
  String.eqb ext "json" || String.eqb ext "yaml" || String.eqb ext "yml" ||
  String.eqb ext "toml" || String.eqb ext "js".

(** The outcome of evaluating a script: of the import, then of the call of
    its default export when that is a function. *)
Definition script_outcome (w : World) (fileContent : string) : result value :=
  module <- import w ("data:text/javascript," ++ fileContent) ;;
  match module with
  | DefaultFunction call => call
  | DefaultValue v => Ok v
  end.

(** The strict decoder of an extension, if it has one. *)
Definition strict_decoder (w : World) (ext : string)
  : option (string -> result value) :=
  if String.eqb ext "json" then Some (JSON_parse w)
  else if String.eqb ext "yaml" || String.eqb ext "yml" then Some (yaml_parse w)
  else if String.eqb ext "toml" then Some (toml_parse w)
  else None.

(** A runtime cut down to one inherited member: every value inherits
    [constructor], the function that made it (0 for [Object], 1 for [Array],
    2 for [String], 3 for [Number], 4 for [Boolean]); such a function has a
    [name] and a [length], and refuses to tell its [caller] and its
    [arguments]. *)
Definition sample_inherited (v : value) (key : string) : read :=
  if String.eqb key "constructor" then
    match v with
    | VObj _ _ _ => Found (Host 0)
    | VArr _ _ _ => Found (Host 1)
    | VStr _ => Found (Host 2)
    | VNum _ => Found (Host 3)
    | VBool _ => Found (Host 4)
    | _ => Found (Data VUndefined)
    end
  else Found (Data VUndefined).

Definition constructor_name (h : nat) : string :=
  match h with
  | 0 => "Object"
  | 1 => "Array"
  | 2 => "String"
  | 3 => "Number"
  | 4 => "Boolean"
  | _ => ""
  end.

Definition sample_host_member (h : nat) (key : string) : read :=
  if String.eqb key "name" then Found (Data (VStr (constructor_name h)))
  else if String.eqb key "length" then Found (Data (VNum 1))
  else if String.eqb key "caller" || String.eqb key "arguments"
  then Thrown "'caller', 'callee', and 'arguments' properties may not be accessed on strict mode functions or the arguments objects for calls to them"
  else Found (Data VUndefined).

Definition sample_inherited_names (v : value) (key : string) :
  member_name key = false -> sample_inherited v key = Found (Data VUndefined).
Proof.
  intros H. unfold sample_inherited.
  destruct (String.eqb_spec key "constructor") as [->|Hne];
    [discriminate | reflexivity].
Defined.

Definition sample_engine : Engine :=
  {| inherited := sample_inherited;
     host_member := sample_host_member;
     inherited_names := sample_inherited_names |}.

(** What [get] answers once the traversal has ended in [result]. *)
Definition answer (obj defaultValue : value) (result : reached) : reached :=
  if undefined_reached result || identical result obj
  then Data defaultValue else result.

(** The runtime refuses some read with [reason]. *)
Definition throws (E : Engine) (reason : string) : Prop :=
  (exists v key, inherited E v key = Thrown reason) \/
  (exists h key, host_member E h key = Thrown reason).

(** ** Further notions for the statements *)


(** A method call, as opposed to the pending pass settling. *)
Definition is_call (e : event) : bool :=
  match e with Settles _ _ => false | _ => true end.

(** A change of the source list. *)
Definition is_mutation (e : event) : bool :=
  match e with
  | CallAddSource _ | CallRemoveSource _ => true
  | _ => false
  end.

(** A source that names a file. *)
Definition is_file (source : value) : bool :=
  match source with VStr _ => true | _ => false end.

(** How many entries of [l] are identical ([===]) to [x]. *)
Fixpoint count_identical (x : value) (l : list value) : nat :=
  match l with
  | [] => 0
  | y :: r => (if strict_eq y x then 1 else 0) + count_identical x r
  end.

(** The tree without its frozen flags: identities, keys, values, order. *)
Fixpoint content (v : value) : value :=
  match v with
  | VArr a _ l => VArr a false (map content l)
  | VObj a _ l => VObj a false (map (fun kv => (fst kv, content (snd kv))) l)
  | _ => v
  end.

(** No character of [s] is a delimiter. *)
Fixpoint delimiter_free (delim : ascii -> bool) (s : string) : bool :=
  match s with
  | EmptyString => true
  | String c r => negb (delim c) && delimiter_free delim r
  end.

(** The path with a comma in the place of every dot and bracket. *)
Fixpoint commas (path : string) : string :=
  match path with
  | EmptyString => EmptyString
  | String c r => String (if dotted_delim c then "," else c) (commas r)
  end.

(** The segments written one after the other, with commas in between. *)
Fixpoint join_commas (l : list string) : string :=
  match l with
  | [] => EmptyString
  | [s] => s
  | s :: r => s ++ "," ++ join_commas r
  end.

(** [get(path, defaultValue)] of the earlier revision of the class, which
    hands every path to the accessor. *)
Module LegacyClass.
Definition Config_get (E : Engine) (c : Config) (path : string)
  (defaultValue : value) : result reached :=
  if negb (ready c) then Err NotReady
  else get E (mergedConfigs c) path defaultValue.
End LegacyClass.

(** ** Facts on the path accessor *)

Example split_on_brackets :
  split_on primary_delim "a.b[1].c" = ["a.b"; "1"; ".c"] /\
  split_on primary_delim "a[1]" = ["a"; "1"; ""] /\
  split_on primary_delim "" = [""].
Proof. repeat split. Qed.

Example segments_of_paths :
  segments primary_delim "a.b[1].c" = ["a.b"; "1"; ".c"] /\
  segments dotted_delim "a.b[1].c" = ["a"; "b"; "1"; "c"] /\
  segments primary_delim "a,b,1,c" = ["a"; "b"; "1"; "c"] /\
  segments primary_delim ",[]" = [].
Proof. repeat split. Qed.

Example extension_of_paths :
  extension "test/test-data/test-config1.yaml" = "yaml" /\
  extension "app.config.js" = "js" /\
  extension "json" = "json".
Proof. repeat split. Qed.

Example get_on_nested_tree :
  get sample_engine nested_tree "a.b[1].c" VUndefined = Ok (Data (num 6)) /\
  get sample_engine nested_tree "a.b.length" VUndefined = Ok (Data (num 2)) /\
  get sample_engine nested_tree "a.b.0" (num 7) = Ok (Data (num 0)) /\
  get sample_engine nested_tree "a.x.y" (num 7) = Ok (Data (num 7)).
Proof. repeat split. Qed.

(** The reducer hands a [null] on to the end, and only [undefined] is
    replaced by the default. *)
Example get_below_null :
  get sample_engine (obj 1 [("a", VNull)]) "a.b" (num 7) = Ok (Data VNull) /\
  get sample_engine (obj 1 [("a", VNull)]) "a" (num 7) = Ok (Data VNull).
Proof. repeat split. Qed.

(** A read goes up the prototype chain: the function that made the tree is
    reached, its name is a string, and it refuses to tell its caller. *)
Example get_inherited_members :
  get sample_engine nested_tree "constructor" (num 7) = Ok (Host 0) /\
  get sample_engine nested_tree "constructor.name" (num 7)
    = Ok (Data (VStr "Object")) /\
  is_ok (get sample_engine nested_tree "constructor.caller" (num 7)) = false.
Proof. repeat split. Qed.

Lemma strict_eq_refl (v : value) : strict_eq v v = true.
Proof.
  destruct v; simpl; auto using Nat.eqb_refl, Z.eqb_refl, String.eqb_refl.
  destruct b; reflexivity.
Qed.

Lemma of_read_outcome (E : Engine) (r : read) :
  (forall reason, r = Thrown reason -> throws E reason) ->
  (exists v, of_read r = Ok v) \/
  (exists reason, of_read r = Err (TypeError reason) /\ throws E reason).
Proof.
  intros H. destruct r as [x|reason]; simpl; [left; eauto|].
  right. exists reason. split; [reflexivity | apply H; reflexivity].
Qed.

Lemma inherited_outcome (E : Engine) (v : value) (key : string) :
  (exists x, of_read (inherited E v key) = Ok x) \/
  (exists reason, of_read (inherited E v key) = Err (TypeError reason) /\
                  throws E reason).
Proof.
  apply of_read_outcome. intros reason H. left. eauto.
Qed.

Lemma step_outcome (E : Engine) (res : reached) (key : string) :
  (exists v, step E res key = Ok v) \/
  (exists reason, step E res key = Err (TypeError reason) /\ throws E reason).
Proof.
  destruct res as [v|h]; simpl.
  - destruct v as [| |b|n|s|a fr l|a fr l]; simpl;
      try (left; eauto; fail); try apply inherited_outcome.
    + destruct (array_index key) as [i|].
      * destruct (Nat.ltb i (String.length s));
          [left; eauto | apply inherited_outcome].
      * destruct (String.eqb key "length");
          [left; eauto | apply inherited_outcome].
    + destruct (array_index key) as [i|].
      * destruct (Nat.ltb i (length l));
          [left; eauto | apply inherited_outcome].
      * destruct (String.eqb key "length");
          [left; eauto | apply inherited_outcome].
    + destruct (lookup key l); [left; eauto | apply inherited_outcome].
  - apply of_read_outcome. intros reason H. right. eauto.
Qed.

Lemma reduce_outcome (E : Engine) (keys : list string) :
  forall res,
    (exists v, reduce E keys res = Ok v) \/
    (exists reason, reduce E keys res = Err (TypeError reason) /\
                    throws E reason).
Proof.
  induction keys as [|key rest IH]; intros res; simpl.
  - left. eauto.
  - destruct (step_outcome E res key) as [[v Hv]|(reason & Hr & Ht)].
    + rewrite Hv. simpl. apply IH.
    + rewrite Hr. simpl. right. eauto.
Qed.

Lemma get_outcome (E : Engine) (o : value) (path : string) (d : value) :
  (exists v, get E o path d = Ok v) \/
  (exists reason, get E o path d = Err (TypeError reason) /\ throws E reason).
Proof.
  unfold get, travel.
  destruct (reduce_outcome E (segments primary_delim path) (Data o))
    as [[r1 H1]|(reason & Hr & Ht)].
  - rewrite H1. simpl. destruct (truthy_reached r1); simpl; [left; eauto|].
    destruct (reduce_outcome E (segments dotted_delim path) (Data o))
      as [[r2 H2]|(reason & Hr & Ht)].
    + rewrite H2. simpl. left. eauto.
    + rewrite Hr. simpl. right. eauto.
  - rewrite Hr. simpl. right. eauto.
Qed.

Lemma reduce_app (E : Engine) (pre post : list string) :
  forall res,
    reduce E (pre ++ post) res = (r <- reduce E pre res ;; reduce E post r).
Proof.
  induction pre as [|key rest IH]; intros res; simpl.
  - reflexivity.
  - destruct (step E res key); simpl; auto.
Qed.

Lemma reduce_nullish (E : Engine) (keys : list string) :
  forall v, is_nullish v = true -> reduce E keys (Data v) = Ok (Data v).
Proof.
  induction keys as [|key rest IH]; intros v H; simpl.
  - reflexivity.
  - rewrite H. simpl. auto.
Qed.

Lemma segments_nil_cons (delim : ascii -> bool) (c : ascii) (r : string) :
  segments delim (String c r) = [] ->
  delim c = true /\ segments delim r = [].
Proof.
  unfold segments. simpl. destruct (delim c); simpl.
  - auto.
  - destruct (split_on delim r); simpl; discriminate.
Qed.

Lemma segments_nil_weaken (d1 d2 : ascii -> bool) :
  (forall c, d1 c = true -> d2 c = true) ->
  forall s, segments d1 s = [] -> segments d2 s = [].
Proof.
  intros Hsub s. induction s as [|c r IH]; intros H.
  - reflexivity.
  - apply segments_nil_cons in H. destruct H as [Hc Hr].
    unfold segments. simpl. rewrite (Hsub c Hc). simpl. apply IH, Hr.
Qed.

Lemma primary_is_dotted (c : ascii) :
  primary_delim c = true -> dotted_delim c = true.
Proof. unfold dotted_delim. intros ->. reflexivity. Qed.

Lemma get_of_first (E : Engine) (o : value) (path : string) (d : value)
  (r1 : reached) :
  travel E primary_delim o path = Ok r1 ->
  truthy_reached r1 = true ->
  get E o path d = Ok (answer o d r1).
Proof. intros H1 Ht. unfold get. rewrite H1. simpl. rewrite Ht. reflexivity. Qed.

Lemma get_of_second (E : Engine) (o : value) (path : string) (d : value)
  (r1 r2 : reached) :
  travel E primary_delim o path = Ok r1 ->
  truthy_reached r1 = false ->
  travel E dotted_delim o path = Ok r2 ->
  get E o path d = Ok (answer o d r2).
Proof.
  intros H1 Ht H2. unfold get. rewrite H1. simpl. rewrite Ht, H2. reflexivity.
Qed.

Lemma get_of_results (E : Engine) (o : value) (path : string)
  (d : value) (r1 r2 : reached) :
  travel E primary_delim o path = Ok r1 ->
  travel E dotted_delim o path = Ok r2 ->
  get E o path d = Ok (answer o d (if truthy_reached r1 then r1 else r2)).
Proof.
  intros H1 H2. unfold get. rewrite H1. simpl.
  destruct (truthy_reached r1); simpl; [reflexivity|]. rewrite H2. reflexivity.
Qed.


(** ** Readiness contract of [get] *)

(** C3 (as stated: once ready, [get] never throws): on a ready instance
    [get('constructor.caller', 7)] throws, the function that made the tree
    refusing to tell its caller. *)
Lemma Config_get_throws_counterexample :
  ready (ready_with nested_tree) = true /\
  is_ok (Config_get sample_engine (ready_with nested_tree)
           "constructor.caller" (num 7)) = false /\
  (forall v, Config_get sample_engine (ready_with nested_tree)
               "constructor.caller" (num 7) <> Ok v).
Proof. repeat split. intros v. discriminate. Qed.

(** C3 (amended): [get(path, default)] on an instance whose readiness flag
    is false fails with the not-ready error, whatever the path and the
    default, and only then; on an instance whose flag is true it answers a
    value, unless the traversal reads a member inherited from the runtime
    whose read the runtime refuses, and then it throws that very error. *)
Theorem Config_get_ready_contract (E : Engine) (c : Config) (path : string)
  (d : value) :
  (ready c = false <-> Config_get E c path d = Err NotReady) /\
  (ready c = true ->
   (exists v, Config_get E c path d = Ok v) \/
   (exists reason,
      Config_get E c path d = Err (TypeError reason) /\ throws E reason)) /\
  ((forall reason, ~ throws E reason) ->
   (ready c = true <-> exists v, Config_get E c path d = Ok v)).
Proof.
  assert (Hready : ready c = true ->
    (exists v, Config_get E c path d = Ok v) \/
    (exists reason,
       Config_get E c path d = Err (TypeError reason) /\ throws E reason)).
  { intros Hr. unfold Config_get. rewrite Hr. simpl.
    destruct (String.eqb path ""); [left; eauto | apply get_outcome]. }
  split; [|split; [exact Hready|]].
  - split.
    + intros Hr. unfold Config_get. rewrite Hr. reflexivity.
    + intros H. destruct (ready c) eqn:Hr; [|reflexivity].
      destruct (Hready eq_refl) as [[v Hv]|(reason & Hv & _)];
        rewrite Hv in H; discriminate.
  - intros Hquiet. split.
    + intros Hr. destruct (Hready Hr) as [Hok|(reason & _ & Ht)];
        [exact Hok | destruct (Hquiet reason Ht)].
    + intros [v Hv]. destruct (ready c) eqn:Hr; [reflexivity|].
      unfold Config_get in Hv. rewrite Hr in Hv. discriminate.
Qed.

(** ** Defaults of [get] *)

(** C6 (as stated: the empty path lets [get] answer the default): on a
    ready instance [get('', 7)] answers the merged tree itself, not 7. *)
Lemma Config_get_empty_path_counterexample :
  ready (ready_with nested_tree) = true /\
  Config_get sample_engine (ready_with nested_tree) "" (num 7)
    = Ok (Data nested_tree) /\
  Config_get sample_engine (ready_with nested_tree) "" (num 7)
    <> Ok (Data (num 7)).
Proof. repeat split. discriminate. Qed.

(** C6 (amended): on a ready instance, [get] with the empty path answers the
    merged tree itself whatever the default.  With any other path, the
    result of the traversal is that of the segments split on comma and
    brackets when it is truthy, and that of the segments split on dots as
    well when not; [get] answers the default exactly when that result is
    [undefined] or is the root itself, and the result otherwise, and it
    throws only what a traversal throws.  A traversal that meets an absent
    ([undefined]) intermediate value stays [undefined], so when both
    readings do, the default is answered; and so it is when the path has no
    segment at all. *)
Theorem Config_get_default_rule (E : Engine) (c : Config) (path : string)
  (d : value) :
  ready c = true ->
  (path = "" -> Config_get E c path d = Ok (Data (mergedConfigs c))) /\
  (path <> "" ->
   forall r1,
     travel E primary_delim (mergedConfigs c) path = Ok r1 ->
     (truthy_reached r1 = true ->
      Config_get E c path d = Ok (answer (mergedConfigs c) d r1)) /\
     (truthy_reached r1 = false ->
      forall r2,
        travel E dotted_delim (mergedConfigs c) path = Ok r2 ->
        Config_get E c path d = Ok (answer (mergedConfigs c) d r2)) /\
     (truthy_reached r1 = false ->
      forall e,
        travel E dotted_delim (mergedConfigs c) path = Err e ->
        Config_get E c path d = Err e)) /\
  (path <> "" ->
   forall e,
     travel E primary_delim (mergedConfigs c) path = Err e ->
     Config_get E c path d = Err e) /\
  (forall result,
     answer (mergedConfigs c) d result = Data d \/
     (answer (mergedConfigs c) d result = result /\
      undefined_reached result = false /\
      identical result (mergedConfigs c) = false)) /\
  (forall delim pre post,
     segments delim path = (pre ++ post)%list ->
     reduce E pre (Data (mergedConfigs c)) = Ok (Data VUndefined) ->
     travel E delim (mergedConfigs c) path = Ok (Data VUndefined)) /\
  (path <> "" ->
   travel E primary_delim (mergedConfigs c) path = Ok (Data VUndefined) ->
   travel E dotted_delim (mergedConfigs c) path = Ok (Data VUndefined) ->
   Config_get E c path d = Ok (Data d)) /\
  (path <> "" ->
   segments primary_delim path = [] ->
   Config_get E c path d = Ok (Data d)).
Proof.
  intros Hready.
  assert (Hget : path <> "" ->
                 Config_get E c path d = get E (mergedConfigs c) path d).
  { intros Hne. unfold Config_get. rewrite Hready. simpl.
    destruct (String.eqb_spec path ""); [contradiction | reflexivity]. }
  split; [|split; [|split; [|split; [|split; [|split]]]]].
  - intros ->. unfold Config_get. rewrite Hready. reflexivity.
  - intros Hne r1 H1. rewrite (Hget Hne). split; [|split].
    + intros Ht. apply get_of_first; assumption.
    + intros Ht r2 H2. apply (get_of_second E _ _ d r1 r2); assumption.
    + intros Ht e H2. unfold get. rewrite H1. simpl. rewrite Ht, H2.
      reflexivity.
  - intros Hne e H1. rewrite (Hget Hne). unfold get. rewrite H1. reflexivity.
  - intros result. unfold answer.
    destruct (undefined_reached result); simpl; [left; reflexivity|].
    destruct (identical result (mergedConfigs c));
      [left; reflexivity | right; auto].
  - intros delim pre post Hseg Hpre. unfold travel.
    rewrite Hseg, reduce_app, Hpre. simpl. apply reduce_nullish. reflexivity.
  - intros Hne H1 H2. rewrite (Hget Hne).
    rewrite (get_of_results E _ _ d _ _ H1 H2). reflexivity.
  - intros Hne Hseg. rewrite (Hget Hne).
    assert (H1 : travel E primary_delim (mergedConfigs c) path
                 = Ok (Data (mergedConfigs c))).
    { unfold travel. rewrite Hseg. reflexivity. }
    assert (H2 : travel E dotted_delim (mergedConfigs c) path
                 = Ok (Data (mergedConfigs c))).
    { unfold travel.
      rewrite (segments_nil_weaken _ _ primary_is_dotted _ Hseg). reflexivity. }
    rewrite (get_of_results E _ _ d _ _ H1 H2). unfold answer. simpl.
    destruct (truthy (mergedConfigs c)); simpl;
      rewrite strict_eq_refl, orb_true_r; reflexivity.
Qed.

Lemma Config_get_default_rule_witness :
  ready (ready_with nested_tree) = true /\
  Config_get sample_engine (ready_with nested_tree) "a.missing.c" (num 7)
    = Ok (Data (num 7)) /\
  Config_get sample_engine (ready_with nested_tree) "[]" (num 7)
    = Ok (Data (num 7)) /\
  Config_get sample_engine (ready_with nested_tree) "constructor.name" (num 7)
    = Ok (Data (VStr "Object")).
Proof.
  pose proof (Config_get_default_rule sample_engine (ready_with nested_tree)
                "a.missing.c" (num 7) eq_refl) as H1.
  pose proof (Config_get_default_rule sample_engine (ready_with nested_tree)
                "[]" (num 7) eq_refl) as H2.
  pose proof (Config_get_default_rule sample_engine (ready_with nested_tree)
                "constructor.name" (num 7) eq_refl) as H3.
  destruct H1 as (_ & _ & _ & _ & _ & H1 & _).
  destruct H2 as (_ & _ & _ & _ & _ & _ & H2).
  destruct H3 as (_ & H3 & _).
  split; [reflexivity|]. split; [|split].
  - apply H1; [discriminate | reflexivity | reflexivity].
  - apply H2; [discriminate | reflexivity].
  - destruct (H3 ltac:(discriminate) (Data VUndefined) eq_refl)
      as (_ & H & _).
    exact (H eq_refl (Data (VStr "Object")) eq_refl).
Defined.

Lemma no_dotted_key_is_falsy (E : Engine) (root : value) :
  lookup "a.b" (fields_of root) = None ->
  exists r, travel E primary_delim root "a.b[1].c" = Ok r /\
            truthy_reached r = false.
Proof.
  intros Hkey. unfold travel.
  change (segments primary_delim "a.b[1].c") with ["a.b"; "1"; ".c"].
  pose proof (inherited_names E root "a.b" eq_refl) as Hin.
  destruct root as [| |b|n|s|a fr l|a fr l];
    try (exists (Data VUndefined); split; [|reflexivity];
         cbn [reduce step is_nullish getProp array_index digits_value
              is_digit nat_of_ascii bind];
         rewrite ?Hin; reflexivity).
  - exists (Data VNull). split; reflexivity.
  - exists (Data VUndefined). split; [|reflexivity]. simpl in Hkey.
    cbn [reduce step is_nullish getProp bind]. rewrite Hkey, Hin. reflexivity.
Qed.

(** ** The two path notations *)

(** C7 (as stated, for every tree): on a tree with a key that holds a dot,
    ['a.b[1].c'] reads that key first and finds 5, ['a,b,1,c'] finds 6. *)
Lemma path_notations_counterexample :
  Config_get sample_engine (ready_with dotted_key_tree) "a.b[1].c" (num 7)
    = Ok (Data (num 5)) /\
  Config_get sample_engine (ready_with dotted_key_tree) "a,b,1,c" (num 7)
    = Ok (Data (num 6)) /\
  Config_get sample_engine (ready_with dotted_key_tree) "a.b[1].c" (num 7) <>
  Config_get sample_engine (ready_with dotted_key_tree) "a,b,1,c" (num 7).
Proof. repeat split. discriminate. Qed.

(** C7 (amended): [get('a.b[1].c', default)] and [get('a,b,1,c', default)]
    answer the same on every tree where the first path read without its
    dots, that is the segments ['a.b'], ['1'], ['.c'], resolves to a falsy
    value, since only then is it split on dots as well; in particular on
    every tree whose root has no key ['a.b']. *)
Theorem path_notations_agree (E : Engine) (c : Config) (d : value) :
  (forall r,
     travel E primary_delim (mergedConfigs c) "a.b[1].c" = Ok r ->
     truthy_reached r = false ->
     Config_get E c "a.b[1].c" d = Config_get E c "a,b,1,c" d) /\
  (lookup "a.b" (fields_of (mergedConfigs c)) = None ->
   Config_get E c "a.b[1].c" d = Config_get E c "a,b,1,c" d).
Proof.
  assert (H : forall r,
    travel E primary_delim (mergedConfigs c) "a.b[1].c" = Ok r ->
    truthy_reached r = false ->
    Config_get E c "a.b[1].c" d = Config_get E c "a,b,1,c" d).
  { intros r Hr Hfalsy. unfold Config_get. destruct (ready c); simpl; auto.
    unfold get. rewrite Hr. cbn [bind]. rewrite Hfalsy.
    change (travel E primary_delim (mergedConfigs c) "a,b,1,c")
      with (travel E dotted_delim (mergedConfigs c) "a.b[1].c").
    change (travel E dotted_delim (mergedConfigs c) "a,b,1,c")
      with (travel E dotted_delim (mergedConfigs c) "a.b[1].c").
    destruct (travel E dotted_delim (mergedConfigs c) "a.b[1].c") as [r2|e];
      cbn [bind]; [|reflexivity].
    destruct (truthy_reached r2); reflexivity. }
  split; [exact H|].
  intros Hkey.
  destruct (no_dotted_key_is_falsy E (mergedConfigs c) Hkey) as (r & Hr & Hf).
  exact (H r Hr Hf).
Qed.

Lemma path_notations_agree_witness :
  Config_get sample_engine (ready_with nested_tree) "a.b[1].c" (num 7)
    = Ok (Data (num 6)) /\
  Config_get sample_engine (ready_with nested_tree) "a,b,1,c" (num 7)
    = Ok (Data (num 6)).
Proof.
  pose proof (proj1 (path_notations_agree sample_engine
                       (ready_with nested_tree) (num 7))
                (Data VUndefined) eq_refl eq_refl) as H.
  split; [reflexivity | rewrite <- H; reflexivity].
Defined.

(** ** Load passes *)

Lemma Promise_all_rejects (l : list (result value)) (e : error) :
  In (Err e) l -> exists reason, In (Err reason) l /\ Promise_all l = Err reason.
Proof.
  induction l as [|r t IH]; intros Hin; [contradiction|].
  simpl. destruct r as [v|e0].
  - destruct Hin as [Hin|Hin]; [discriminate|].
    destruct (IH Hin) as (reason & Hr & Hall).
    exists reason. split; [right; assumption|]. simpl. rewrite Hall. reflexivity.
  - exists e0. split; [left|]; reflexivity.
Qed.

Lemma Promise_all_fulfils (l : list (result value)) :
  Forall (fun r => is_ok r = true) l -> exists vs, Promise_all l = Ok vs.
Proof.
  induction 1 as [|r t Hr _ IH]; simpl.
  - eauto.
  - destruct r as [v|e]; [|discriminate]. destruct IH as [vs ->]. simpl. eauto.
Qed.

Lemma resolve_from_rejects (w : World) (source : value) (e : error) :
  (forall addr, resolve w addr source = Err e) ->
  forall l addr, In source l -> In (Err e) (resolve_from w addr l).
Proof.
  intros Hs l. induction l as [|y r IH]; intros addr Hin; [contradiction|].
  simpl. destruct Hin as [->|Hin].
  - left. apply Hs.
  - right. apply IH, Hin.
Qed.

Lemma settle_rejected (w : World) (addr : nat) (c : Config) (p : Pending)
  (reason : error) :
  loadConfigsPromise c = Some p ->
  Promise_all (resolve_from w addr (loadingSources p)) = Err reason ->
  settle w addr c = (clear_pending c, Some (handle p, Err reason)).
Proof. intros Hp Hall. unfold settle. rewrite Hp, Hall. reflexivity. Qed.

Lemma loadConfigs_pending (c : Config) (p : Pending) :
  loadConfigsPromise c = Some p -> loadConfigs c = (c, handle p).
Proof. intros H. unfold loadConfigs. rewrite H. reflexivity. Qed.

Lemma calls_pending (n : nat) (c : Config) (p : Pending) :
  loadConfigsPromise c = Some p -> calls n c = (c, repeat (handle p) n).
Proof.
  intros Hp. induction n as [|n IH]; simpl.
  - reflexivity.
  - rewrite (loadConfigs_pending _ _ Hp), IH. reflexivity.
Qed.

Lemma settle_clears (w : World) (addr : nat) (c : Config) (p : Pending) :
  loadConfigsPromise c = Some p ->
  loadConfigsPromise (fst (settle w addr c)) = None /\
  fanouts (fst (settle w addr c)) = fanouts c /\
  exists outcome, snd (settle w addr c) = Some (handle p, outcome).
Proof.
  intros Hp. unfold settle. rewrite Hp.
  destruct (Promise_all (resolve_from w addr (loadingSources p))) as [vs|e].
  - unfold publish.
    destruct (deepFreeze (merge vs (addr + length (loadingSources p))));
      simpl; eauto.
  - simpl. eauto.
Qed.

Lemma loadConfigs_ready (c : Config) :
  ready (fst (loadConfigs c)) = ready c.
Proof. unfold loadConfigs. destruct (loadConfigsPromise c); reflexivity. Qed.

Lemma fire_keeps_ready (c : Config) (e : event) :
  ready c = true -> ready (fire c e) = true.
Proof.
  intros Hr. destruct e as [|l|x|w addr]; simpl.
  - rewrite loadConfigs_ready. exact Hr.
  - unfold addSource. simpl. rewrite Hr.
    pose proof (loadConfigs_ready (with_sources c (sources c ++ l))) as H.
    destruct (loadConfigs _). simpl in *. rewrite H. exact Hr.
  - unfold removeSource.
    set (c1 := if (indexOf (sources c) x >=? 0)%Z
               then with_sources c (splice1 (Z.to_nat (indexOf (sources c) x))
                                      (sources c))
               else c).
    assert (H1 : ready c1 = true)
      by (unfold c1; destruct (indexOf (sources c) x >=? 0)%Z; exact Hr).
    rewrite H1. pose proof (loadConfigs_ready c1) as H.
    destruct (loadConfigs c1). simpl in *. congruence.
  - unfold settle. destruct (loadConfigsPromise c) as [p|]; [|exact Hr].
    destruct (Promise_all (resolve_from w addr (loadingSources p))); simpl;
      [|exact Hr].
    unfold publish.
    destruct (deepFreeze (merge a (addr + length (loadingSources p)))); simpl;
      [reflexivity | exact Hr].
Qed.

(** X18: once ready, an instance stays ready, whatever is called on it
    and however its later passes settle, failed reloads included. *)
Lemma ready_is_permanent (es : list event) :
  forall c, ready c = true -> ready (run c es) = true.
Proof.
  induction es as [|e r IH]; intros c Hr; simpl; [exact Hr|].
  apply IH, fire_keeps_ready, Hr.
Qed.

(** The earlier revision never clears the pending promise. *)
Lemma Legacy_settle_keeps_pending (lf : string -> result value) (addr : nat)
  (c : Config) :
  loadConfigsPromise (fst (Legacy.settle lf addr c)) = loadConfigsPromise c.
Proof.
  unfold Legacy.settle. destruct (loadConfigsPromise c) as [p|] eqn:Hp; auto.
  destruct (Promise_all (map (Legacy.resolve lf) (loadingSources p)));
    simpl; auto.
Qed.

(** C1: when a resolution of the pending pass fails, the promise of
    [loadConfigs()] rejects with the reason of a failed resolution and the
    instance keeps what it had: [mergedConfigs] is the tree published
    before, the readiness flag and the sources are as they were, and
    nothing is pending any more.  So a failing reload leaves a ready
    instance ready with its previous tree, and a failing first load leaves
    the instance not ready. *)
Theorem loadConfigs_failure_retains_state (w : World) (addr : nat)
  (c : Config) (p : Pending) (e : error) :
  loadConfigsPromise c = Some p ->
  In (Err e) (resolve_from w addr (loadingSources p)) ->
  exists reason,
    In (Err reason) (resolve_from w addr (loadingSources p)) /\
    snd (settle w addr c) = Some (handle p, Err reason) /\
    mergedConfigs (fst (settle w addr c)) = mergedConfigs c /\
    ready (fst (settle w addr c)) = ready c /\
    sources (fst (settle w addr c)) = sources c /\
    loadConfigsPromise (fst (settle w addr c)) = None.
Proof.
  intros Hp Hin.
  destruct (Promise_all_rejects _ _ Hin) as (reason & Hr & Hall).
  exists reason. rewrite (settle_rejected w addr c p reason Hp Hall). simpl.
  repeat split; auto.
Qed.

Lemma loadConfigs_failure_retains_state_witness :
  let reload := pending_over true nested_tree [obj 1 []; VStr "broken.json"] in
  let first := pending_over false (obj 0 []) [VStr "missing.yaml"] in
  (ready (fst (settle sample_world 20 reload)) = true /\
   mergedConfigs (fst (settle sample_world 20 reload)) = nested_tree) /\
  (ready (fst (settle sample_world 20 first)) = false /\
   mergedConfigs (fst (settle sample_world 20 first)) = obj 0 []).
Proof.
  intros reload first.
  destruct (loadConfigs_failure_retains_state sample_world 20 reload
              {| handle := 3;
                 loadingSources := [obj 1 []; VStr "broken.json"] |}
              (DecodeFailure "Unexpected token") eq_refl
              (or_intror (or_introl eq_refl)))
    as (r1 & _ & _ & Hm1 & Hr1 & _).
  destruct (loadConfigs_failure_retains_state sample_world 20 first
              {| handle := 3; loadingSources := [VStr "missing.yaml"] |}
              (ReadFailure "ENOENT") eq_refl (or_introl eq_refl))
    as (r2 & _ & _ & Hm2 & Hr2 & _).
  repeat split; assumption.
Defined.

(** C4: from an instance with nothing pending, the first [loadConfigs()]
    starts one pass; every further call made before it settles answers the
    very same promise and leaves the instance as it is, so any number of
    calls count as one fan-out and see the one outcome of that promise; and
    when the pass settles, whatever the outcome, the pending promise is
    cleared and the next call starts a new pass under a new promise. *)
Theorem loadConfigs_single_flight (w : World) (addr : nat) (c : Config)
  (n : nat) :
  loadConfigsPromise c = None ->
  let c1 := fst (loadConfigs c) in
  let h := snd (loadConfigs c) in
  calls n c1 = (c1, repeat h n) /\
  fanouts c1 = S (fanouts c) /\
  (exists outcome, snd (settle w addr c1) = Some (h, outcome)) /\
  let c2 := fst (settle w addr c1) in
  loadConfigsPromise c2 = None /\
  snd (loadConfigs c2) <> h /\
  fanouts (fst (loadConfigs c2)) = S (S (fanouts c)) /\
  loadConfigsPromise (fst (loadConfigs c2)) =
    Some {| handle := snd (loadConfigs c2); loadingSources := sources c2 |}.
Proof.
  intros Hnone. unfold loadConfigs at 1 2 3 4 5. rewrite Hnone. simpl.
  set (p := {| handle := fanouts c; loadingSources := sources c |}).
  set (c1 := {| ready := ready c; loadConfigsPromise := Some p;
                mergedConfigs := mergedConfigs c; _sources := _sources c;
                fanouts := S (fanouts c) |}).
  assert (Hp : loadConfigsPromise c1 = Some p) by reflexivity.
  destruct (settle_clears w addr c1 p Hp) as (Hclear & Hfan & outcome & Hout).
  split; [exact (calls_pending n c1 p Hp)|].
  split; [reflexivity|]. split; [eauto|].
  split; [exact Hclear|].
  unfold loadConfigs. rewrite Hclear. simpl. rewrite Hfan. simpl.
  repeat split. lia.
Qed.

Lemma loadConfigs_single_flight_witness :
  let c := Config_new 0 (obj 1 []) [VStr "base.json"] in
  calls 5 (fst (loadConfigs c)) = (fst (loadConfigs c), [0; 0; 0; 0; 0]) /\
  fanouts (fst (calls 5 (fst (loadConfigs c)))) = 1.
Proof.
  intros c.
  destruct (loadConfigs_single_flight sample_world 20 c 5 eq_refl)
    as (Hcalls & Hfan & _).
  split; [exact Hcalls|]. rewrite Hcalls. exact Hfan.
Defined.

(** ** Failures of file sources *)

(** C5 (as stated: an unrecognized extension fails at once with the
    unsupported-format error): the file is read before its extension is
    looked at, so a path with an unrecognized extension that cannot be read
    fails with the read error. *)
Lemma unsupported_format_counterexample :
  recognized (extension "missing.ini") = false /\
  loadFromFile sample_world 0 "missing.ini" = Err (ReadFailure "ENOENT") /\
  loadFromFile sample_world 0 "missing.ini" <>
    Err (UnsupportedFormat (extension "missing.ini")).
Proof. repeat split. discriminate. Qed.

Lemma loadFromFile_read_failure (w : World) (addr : nat) (filePath : string)
  (reason : error) :
  readFile w filePath = Err reason ->
  loadFromFile w addr filePath = Err reason.
Proof. intros H. unfold loadFromFile. rewrite H. reflexivity. Qed.

(** C5 (amended): once the file has been read, a failure to evaluate a 'js'
    file is answered by a new empty object instead of an error, so the
    entry resolves and the pass goes on; a failure of the decoder of a
    json, yaml, yml or toml file is the outcome of [loadFromFile] and makes
    every pass over a list with that file reject; a file with any other
    extension fails with the unsupported-format error, and so does the
    pass.  A file that cannot be read fails with the read error, whatever
    its extension. *)
Theorem loadFromFile_failures (w : World) (addr : nat) (filePath : string)
  (fileContent : string) :
  readFile w filePath = Ok fileContent ->
  (extension filePath = "js" ->
   forall reason, script_outcome w fileContent = Err reason ->
     loadFromFile w addr filePath = Ok (VObj addr false []) /\
     resolve w addr (VStr filePath) = Ok (VObj addr false [])) /\
  (forall decode reason,
     strict_decoder w (extension filePath) = Some decode ->
     decode fileContent = Err reason ->
     loadFromFile w addr filePath = Err reason /\
     forall l a, In (VStr filePath) l ->
       exists reason', Promise_all (resolve_from w a l) = Err reason') /\
  (recognized (extension filePath) = false ->
     loadFromFile w addr filePath =
       Err (UnsupportedFormat (extension filePath)) /\
     forall l a, In (VStr filePath) l ->
       exists reason', Promise_all (resolve_from w a l) = Err reason') /\
  (forall other reason,
     readFile w other = Err reason ->
     loadFromFile w addr other = Err reason).
Proof.
  intros Hread.
  assert (Hpass : forall e, (forall a, loadFromFile w a filePath = Err e) ->
            forall l a, In (VStr filePath) l ->
              exists reason', Promise_all (resolve_from w a l) = Err reason').
  { intros e He l a Hin.
    destruct (Promise_all_rejects _ e
                (resolve_from_rejects w (VStr filePath) e He l a Hin))
      as (reason' & _ & H).
    eauto. }
  split; [|split; [|split]].
  - intros Hext reason Hscript.
    assert (H : loadFromFile w addr filePath = Ok (VObj addr false [])).
    { unfold loadFromFile. rewrite Hread. cbn [bind]. rewrite Hext.
      cbn [String.eqb Ascii.eqb Bool.eqb orb].
      fold (script_outcome w fileContent). rewrite Hscript. reflexivity. }
    split; [exact H | exact H].
  - intros decode reason Hdec Hfail.
    assert (H : forall a, loadFromFile w a filePath = Err reason).
    { intros a. unfold loadFromFile. rewrite Hread. simpl.
      unfold strict_decoder in Hdec.
      destruct (String.eqb (extension filePath) "json").
      { injection Hdec as <-. exact Hfail. }
      destruct (String.eqb (extension filePath) "yaml"
                || String.eqb (extension filePath) "yml").
      { injection Hdec as <-. exact Hfail. }
      destruct (String.eqb (extension filePath) "toml").
      { injection Hdec as <-. exact Hfail. }
      discriminate. }
    split; [apply H | exact (Hpass reason H)].
  - intros Hrec.
    assert (H : forall a, loadFromFile w a filePath =
                          Err (UnsupportedFormat (extension filePath))).
    { intros a. unfold loadFromFile. rewrite Hread. simpl.
      unfold recognized in Hrec.
      destruct (String.eqb (extension filePath) "json"); [discriminate|].
      destruct (String.eqb (extension filePath) "yaml"); [discriminate|].
      destruct (String.eqb (extension filePath) "yml"); [discriminate|].
      destruct (String.eqb (extension filePath) "toml"); [discriminate|].
      destruct (String.eqb (extension filePath) "js"); [discriminate|].
      reflexivity. }
    split; [apply H | exact (Hpass _ H)].
  - intros other reason. apply loadFromFile_read_failure.
Qed.

Lemma loadFromFile_failures_witness :
  loadFromFile sample_world 7 "broken.js" = Ok (VObj 7 false []) /\
  loadFromFile sample_world 7 "broken.json" =
    Err (DecodeFailure "Unexpected token") /\
  loadFromFile sample_world 7 "notes.txt" = Err (UnsupportedFormat "txt") /\
  snd (settle sample_world 20
         (pending_over false (obj 0 [])
            [VStr "base.json"; VStr "broken.js"])) = Some (3, Ok tt).
Proof.
  destruct (loadFromFile_failures sample_world 7 "broken.js" "X" eq_refl)
    as (Hjs & _).
  destruct (loadFromFile_failures sample_world 7 "broken.json" "B" eq_refl)
    as (_ & Hjson & _).
  destruct (loadFromFile_failures sample_world 7 "notes.txt" "N" eq_refl)
    as (_ & _ & Htxt & _).
  split; [exact (proj1 (Hjs eq_refl (DecodeFailure "SyntaxError") eq_refl))|].
  split; [exact (proj1 (Hjson (JSON_parse sample_world)
                          (DecodeFailure "Unexpected token")
                          eq_refl eq_refl))|].
  split; [exact (proj1 (Htxt eq_refl)) | reflexivity].
Defined.

(** ** Removing a source *)

Lemma indexOf_range (l : list value) (x : value) :
  (indexOf l x = -1 \/ 0 <= indexOf l x)%Z.
Proof.
  induction l as [|y r IH]; simpl.
  - left. reflexivity.
  - destruct (strict_eq y x); [right; lia|].
    destruct (Z.ltb_spec (indexOf r x) 0); [left; reflexivity | right; lia].
Qed.

Lemma splice_indexOf (l : list value) (x : value) :
  (if (indexOf l x >=? 0)%Z then splice1 (Z.to_nat (indexOf l x)) l else l)
  = remove_first x l.
Proof.
  induction l as [|y r IH]; simpl.
  - reflexivity.
  - destruct (strict_eq y x); simpl; [reflexivity|].
    destruct (Z.ltb_spec (indexOf r x) 0) as [Hlt|Hge].
    + simpl. rewrite <- IH.
      destruct (Z.geb_spec (indexOf r x) 0); [lia | reflexivity].
    + destruct (Z.geb_spec (indexOf r x + 1) 0); [|lia].
      replace (Z.to_nat (indexOf r x + 1)) with (S (Z.to_nat (indexOf r x)))
        by lia.
      simpl. rewrite <- IH.
      destruct (Z.geb_spec (indexOf r x) 0); [reflexivity | lia].
Qed.



Lemma removeSource_sources (c : Config) (source : value) :
  sources (fst (removeSource c source)) = remove_first source (sources c).
Proof.
  unfold removeSource. rewrite <- splice_indexOf.
  destruct (indexOf (sources c) source >=? 0)%Z; simpl.
  - destruct (ready c); simpl; [|reflexivity].
    unfold loadConfigs. simpl. destruct (loadConfigsPromise c); reflexivity.
  - destruct (ready c); simpl; [|reflexivity].
    unfold loadConfigs. destruct (loadConfigsPromise c); reflexivity.
Qed.




(** ** The global instance *)

Lemma init_resume_rejected (w : World) (addr : nat) (c : Config)
  (p : Pending) (reason : error) :
  loadConfigsPromise c = Some p ->
  Promise_all (resolve_from w addr (loadingSources p)) = Err reason ->
  Config_init_resume w addr {| _globalConfig := Some c |} =
    ({| _globalConfig := Some (clear_pending c) |}, Err reason).
Proof.
  intros Hp Hall. unfold Config_init_resume. simpl.
  rewrite (settle_rejected w addr c p reason Hp Hall). reflexivity.
Qed.

(** C10: [Config.init] installs the new instance before its load settles.
    When a resolution of that load fails, the promise of [init] rejects with
    the reason, while the global slot holds the new instance, which is not
    ready: [Config.c] then fails with the not-loaded error, whatever was
    installed before the call, a ready instance included. *)
Theorem Config_init_failure_not_atomic (g : Global) (w : World)
  (addr addr' : nat) (defaultConfig : value) (sources : list value)
  (e : error) :
  In (Err e)
     (resolve_from w addr'
        (_sources (Config_new addr defaultConfig sources))) ->
  let g1 := fst (Config_init g addr defaultConfig sources) in
  let g2 := fst (Config_init_resume w addr' g1) in
  (exists reason, snd (Config_init_resume w addr' g1) = Err reason) /\
  (exists c, _globalConfig g2 = Some c /\ isReady c = false /\
             _sources c = _sources (Config_new addr defaultConfig sources)) /\
  Config_c g2 = Err GlobalNotReady.
Proof.
  intros Hin g1 g2.
  set (c0 := Config_new addr defaultConfig sources) in *.
  set (p := {| handle := fanouts c0; loadingSources := _sources c0 |}).
  assert (Hg1 : g1 = {| _globalConfig := Some (fst (loadConfigs c0)) |})
    by reflexivity.
  assert (Hp : loadConfigsPromise (fst (loadConfigs c0)) = Some p)
    by reflexivity.
  destruct (Promise_all_rejects _ e Hin) as (reason & _ & Hall).
  pose proof (init_resume_rejected w addr' _ p reason Hp Hall) as Hres.
  rewrite <- Hg1 in Hres. unfold g2. rewrite Hres. simpl.
  split; [eauto|]. split; [|reflexivity].
  eexists. split; [reflexivity|]. split; reflexivity.
Qed.

Lemma Config_init_failure_not_atomic_witness :
  let g := {| _globalConfig := Some (ready_with nested_tree) |} in
  let g1 := fst (Config_init g 0 (obj 1 []) [VStr "broken.json"]) in
  Config_c g = Ok (ready_with nested_tree) /\
  Config_c (fst (Config_init_resume sample_world 20 g1)) = Err GlobalNotReady.
Proof.
  intros g g1. split; [reflexivity|].
  exact (proj2 (proj2
    (Config_init_failure_not_atomic g sample_world 0 20 (obj 1 [])
       [VStr "broken.json"] (DecodeFailure "Unexpected token")
       (or_intror (or_introl eq_refl))))).
Defined.

(** ** The merge rule *)











(** ** Freezing the published tree *)











Lemma untouched_by_calls (c : Config) :
  mergedConfigs (fst (loadConfigs c)) = mergedConfigs c /\
  (forall l, mergedConfigs (fst (addSource c l)) = mergedConfigs c) /\
  (forall x, mergedConfigs (fst (removeSource c x)) = mergedConfigs c).
Proof.
  assert (H : forall c0, mergedConfigs (fst (loadConfigs c0)) = mergedConfigs c0).
  { intros c0. unfold loadConfigs. destruct (loadConfigsPromise c0); reflexivity. }
  split; [apply H|]. split.
  - intros l. unfold addSource. simpl. destruct (ready c); [|reflexivity].
    specialize (H (with_sources c (sources c ++ l))).
    destruct (loadConfigs _). exact H.
  - intros x. unfold removeSource.
    set (c1 := if (indexOf (sources c) x >=? 0)%Z
               then with_sources c (splice1 (Z.to_nat (indexOf (sources c) x))
                                      (sources c))
               else c).
    assert (H1 : mergedConfigs c1 = mergedConfigs c)
      by (unfold c1; destruct (indexOf (sources c) x >=? 0)%Z; reflexivity).
    destruct (ready c1); [|exact H1].
    specialize (H c1). destruct (loadConfigs c1). simpl in *. congruence.
Qed.

(** ** More on the path accessor *)

Lemma split_on_not_nil (delim : ascii -> bool) (s : string) :
  split_on delim s <> [].
Proof.
  destruct s as [|c r]; simpl; [discriminate|].
  destruct (delim c); [discriminate|].
  destruct (split_on delim r); discriminate.
Qed.

Lemma split_on_delimiter_free (delim : ascii -> bool) (s : string) :
  delimiter_free delim s = true -> split_on delim s = [s].
Proof.
  induction s as [|c r IH]; simpl; [reflexivity|].
  intros H. apply andb_true_iff in H. destruct H as [Hc Hr].
  apply negb_true_iff in Hc. rewrite Hc, (IH Hr). reflexivity.
Qed.

Lemma split_on_pieces (delim : ascii -> bool) (s : string) :
  Forall (fun seg => delimiter_free delim seg = true) (split_on delim s).
Proof.
  induction s as [|c r IH]; simpl.
  - repeat constructor.
  - destruct (delim c) eqn:Hc.
    + constructor; [reflexivity | exact IH].
    + destruct (split_on delim r) as [|h t]; [repeat constructor; simpl;
        rewrite Hc; reflexivity|].
      inversion IH as [|x l Hh Ht]; subst.
      constructor; [simpl; rewrite Hc, Hh; reflexivity | exact Ht].
Qed.

Lemma split_on_append (delim : ascii -> bool) (s : string) (c : ascii)
  (rest : string) :
  delimiter_free delim s = true -> delim c = true ->
  split_on delim (s ++ String c rest) = s :: split_on delim rest.
Proof.
  intros Hs Hc. induction s as [|x r IH]; simpl.
  - rewrite Hc. reflexivity.
  - simpl in Hs. apply andb_true_iff in Hs. destruct Hs as [Hx Hr].
    apply negb_true_iff in Hx. rewrite Hx, (IH Hr). reflexivity.
Qed.

Lemma nonempty_spec (s : string) : nonempty s = true <-> s <> "".
Proof.
  unfold nonempty. destruct (String.eqb_spec s ""); simpl; split; intros H;
    try reflexivity; try discriminate; try assumption; contradiction.
Qed.

(** X1: every segment of a path is a non-empty run of characters none of
    which is a delimiter, whatever the path; and writing the segments with
    commas in between gives a path with exactly those segments. *)
Theorem segments_shape (path : string) :
  Forall (fun seg => seg <> "" /\ delimiter_free primary_delim seg = true)
    (segments primary_delim path) /\
  Forall (fun seg => seg <> "" /\ delimiter_free dotted_delim seg = true)
    (segments dotted_delim path) /\
  segments primary_delim (join_commas (segments primary_delim path)) =
    segments primary_delim path /\
  segments primary_delim (join_commas (segments dotted_delim path)) =
    segments dotted_delim path.
Proof.
  assert (Hshape : forall delim,
    Forall (fun seg => seg <> "" /\ delimiter_free delim seg = true)
      (segments delim path)).
  { intros delim. unfold segments. apply Forall_forall. intros seg Hin.
    apply filter_In in Hin. destruct Hin as [Hin Hne].
    split; [apply nonempty_spec, Hne|].
    pose proof (split_on_pieces delim path) as H.
    rewrite Forall_forall in H. apply H, Hin. }
  assert (Hjoin : forall l,
    Forall (fun seg => seg <> "" /\ delimiter_free primary_delim seg = true) l ->
    segments primary_delim (join_commas l) = l).
  { induction l as [|s r IH]; intros Hl; [reflexivity|].
    inversion Hl as [|x l' [Hne Hfree] Hr]; subst.
    destruct r as [|s' r'].
    - simpl. unfold segments. rewrite (split_on_delimiter_free _ _ Hfree).
      simpl. apply nonempty_spec in Hne. rewrite Hne. reflexivity.
    - change (join_commas (s :: s' :: r'))
        with (s ++ String "," (join_commas (s' :: r'))).
      unfold segments.
      rewrite (split_on_append primary_delim s "," _ Hfree eq_refl).
      simpl. apply nonempty_spec in Hne. rewrite Hne. f_equal.
      apply (IH Hr). }
  assert (Hweak : forall l,
    Forall (fun seg => seg <> "" /\ delimiter_free dotted_delim seg = true) l ->
    Forall (fun seg => seg <> "" /\ delimiter_free primary_delim seg = true) l).
  { intros l. apply Forall_impl. intros seg [Hne Hfree]. split; [exact Hne|].
    clear Hne. induction seg as [|c r IH]; [reflexivity|].
    simpl in *. apply andb_true_iff in Hfree. destruct Hfree as [Hc Hr].
    rewrite (IH Hr), andb_true_r. unfold dotted_delim in Hc.
    apply negb_true_iff in Hc. apply orb_false_iff in Hc.
    destruct Hc as [-> _]. reflexivity. }
  split; [apply Hshape|]. split; [apply Hshape|].
  split; [apply Hjoin, Hshape | apply Hjoin, Hweak, Hshape].
Qed.

Lemma split_on_commas (path : string) :
  split_on primary_delim (commas path) = split_on dotted_delim path /\
  split_on dotted_delim (commas path) = split_on dotted_delim path.
Proof.
  induction path as [|c r [IH1 IH2]]; simpl; [split; reflexivity|].
  destruct (dotted_delim c) eqn:Hc.
  - change (primary_delim ",") with true. change (dotted_delim ",") with true.
    rewrite IH1, IH2. split; reflexivity.
  - rewrite Hc. unfold dotted_delim in Hc. apply orb_false_iff in Hc.
    destruct Hc as [-> _]. rewrite IH1, IH2. split; reflexivity.
Qed.

(** X2: for every tree, path and default, the path and the same path with a
    comma in the place of every dot and bracket answer the same, provided
    the path read without splitting on dots resolves to a falsy value. *)
Theorem notations_agree_in_general (E : Engine) (o : value) (path : string)
  (d : value) (r : reached) :
  travel E primary_delim o path = Ok r ->
  truthy_reached r = false ->
  get E o path d = get E o (commas path) d.
Proof.
  intros Hr Hfalsy.
  destruct (split_on_commas path) as [Hs1 Hs2].
  assert (H3 : travel E primary_delim o (commas path)
               = travel E dotted_delim o path)
    by (unfold travel, segments; rewrite Hs1; reflexivity).
  assert (H4 : travel E dotted_delim o (commas path)
               = travel E dotted_delim o path)
    by (unfold travel, segments; rewrite Hs2; reflexivity).
  unfold get. rewrite Hr, H3, H4. cbn [bind]. rewrite Hfalsy.
  destruct (travel E dotted_delim o path) as [r2|e]; cbn [bind];
    [|reflexivity].
  destruct (truthy_reached r2); reflexivity.
Qed.

Lemma notations_agree_in_general_witness :
  get sample_engine nested_tree "a[b][1].c" (num 7) = Ok (Data (num 6)) /\
  get sample_engine nested_tree (commas "a[b][1].c") (num 7)
    = Ok (Data (num 6)).
Proof.
  pose proof (notations_agree_in_general sample_engine nested_tree
                "a[b][1].c" (num 7) (Data VUndefined) eq_refl eq_refl) as H.
  split; [reflexivity | rewrite <- H; reflexivity].
Defined.



Lemma dotted_free_primary_free (s : string) :
  delimiter_free dotted_delim s = true ->
  delimiter_free primary_delim s = true.
Proof.
  induction s as [|c r IH]; [reflexivity|]. simpl. intros H.
  apply andb_true_iff in H. destruct H as [Hc Hr].
  rewrite (IH Hr), andb_true_r. unfold dotted_delim in Hc.
  apply negb_true_iff in Hc. apply orb_false_iff in Hc.
  destruct Hc as [-> _]. reflexivity.
Qed.

Lemma single_segment (delim : ascii -> bool) (key : string) :
  key <> "" -> delimiter_free delim key = true ->
  segments delim key = [key].
Proof.
  intros Hne Hfree. unfold segments.
  rewrite (split_on_delimiter_free _ _ Hfree). simpl.
  apply nonempty_spec in Hne. rewrite Hne. reflexivity.
Qed.

Lemma get_single_key (E : Engine) (o : value) (key : string) (d : value)
  (v : reached) :
  key <> "" -> delimiter_free dotted_delim key = true ->
  getProp E o key = Ok v ->
  get E o key d = Ok (answer o d v).
Proof.
  intros Hne Hfree Hprop.
  assert (Hnn : is_nullish o = false)
    by (destruct o; try reflexivity; discriminate).
  assert (H1 : travel E primary_delim o key = Ok v).
  { unfold travel.
    rewrite (single_segment _ _ Hne (dotted_free_primary_free _ Hfree)).
    simpl. rewrite Hnn, Hprop. reflexivity. }
  assert (H2 : travel E dotted_delim o key = Ok v).
  { unfold travel. rewrite (single_segment _ _ Hne Hfree).
    simpl. rewrite Hnn, Hprop. reflexivity. }
  rewrite (get_of_results E _ _ d _ _ H1 H2).
  destruct (truthy_reached v); reflexivity.
Qed.

Lemma digit_not_delimiter (c : ascii) :
  is_digit c = true -> dotted_delim c = false.
Proof.
  intros Hd. unfold dotted_delim, primary_delim.
  destruct (Ascii.eqb_spec c ","); [subst; discriminate|].
  destruct (Ascii.eqb_spec c "["); [subst; discriminate|].
  destruct (Ascii.eqb_spec c "]"); [subst; discriminate|].
  destruct (Ascii.eqb_spec c "."); [subst; discriminate|].
  reflexivity.
Qed.

Lemma digits_delimiter_free (s : string) :
  forall acc n, digits_value acc s = Some n ->
                delimiter_free dotted_delim s = true.
Proof.
  induction s as [|c r IH]; intros acc n H; [reflexivity|].
  simpl in *. destruct (is_digit c) eqn:Hc; [|discriminate].
  rewrite (digit_not_delimiter c Hc). simpl. exact (IH _ _ H).
Qed.

Lemma array_index_key (key : string) (i : nat) :
  array_index key = Some i ->
  key <> "" /\ delimiter_free dotted_delim key = true.
Proof.
  intros H. destruct key as [|c r]; [discriminate|].
  split; [discriminate|].
  unfold array_index in H.
  destruct (Ascii.eqb_spec c "0") as [->|Hc0].
  - destruct r; [reflexivity | discriminate].
  - assert (Hd : digits_value 0 (String c r) = Some i).
    { destruct c as [[] [] [] [] [] [] [] []]; try exact H;
        exfalso; apply Hc0; reflexivity. }
    exact (digits_delimiter_free _ _ _ Hd).
Qed.

Lemma array_index_no_name (key : string) (i : nat) :
  array_index key = Some i -> member_name key = false.
Proof.
  destruct key as [|c r]; [reflexivity|]. intros H. simpl.
  assert (Hd : is_digit c = true).
  { unfold array_index in H.
    destruct (Ascii.eqb_spec c "0") as [->|Hc0]; [reflexivity|].
    assert (Hv : digits_value 0 (String c r) = Some i).
    { destruct c as [[] [] [] [] [] [] [] []]; try exact H;
        exfalso; apply Hc0; reflexivity. }
    simpl in Hv. destruct (is_digit c); [reflexivity | discriminate]. }
  rewrite Hd. reflexivity.
Qed.

(** X4: on a sequence, an index past its end answers the default, and an
    index within it answers the element there, as long as the element is
    not [undefined] and not the sequence itself. *)
Theorem get_index_of_sequence (E : Engine) (a : nat) (fr : bool)
  (l : list value) (key : string) (i : nat) (d : value) :
  array_index key = Some i ->
  (List.length l <= i -> get E (VArr a fr l) key d = Ok (Data d)) /\
  (i < List.length l ->
   is_undefined (nth i l VUndefined) = false ->
   strict_eq (nth i l VUndefined) (VArr a fr l) = false ->
   get E (VArr a fr l) key d = Ok (Data (nth i l VUndefined))).
Proof.
  intros Hidx. destruct (array_index_key key i Hidx) as [Hne Hfree].
  assert (Hprop : getProp E (VArr a fr l) key
                  = Ok (Data (nth i l VUndefined))).
  { simpl. rewrite Hidx. destruct (Nat.ltb_spec i (length l)) as [Hlt|Hge].
    - reflexivity.
    - rewrite (inherited_names E _ key (array_index_no_name key i Hidx)).
      simpl. rewrite (nth_overflow l VUndefined Hge). reflexivity. }
  pose proof (get_single_key E (VArr a fr l) key d _ Hne Hfree Hprop) as Hget.
  unfold answer in Hget. simpl in Hget. split.
  - intros Hout. rewrite Hget, (nth_overflow l VUndefined Hout). reflexivity.
  - intros _ Hu He. rewrite Hget, Hu, He. reflexivity.
Qed.

Lemma get_index_of_sequence_witness :
  get sample_engine (arr 1 [num 4; num 5]) "2" (num 0) = Ok (Data (num 0)) /\
  get sample_engine (arr 1 [num 4; num 5]) "1" (num 0) = Ok (Data (num 5)).
Proof.
  destruct (get_index_of_sequence sample_engine 1 false [num 4; num 5] "2" 2
              (num 0) eq_refl) as [Hout _].
  destruct (get_index_of_sequence sample_engine 1 false [num 4; num 5] "1" 1
              (num 0) eq_refl) as [_ Hin].
  split; [apply Hout; simpl; lia|].
  apply Hin; [simpl; lia | reflexivity | reflexivity].
Defined.

(** ** More on [deepFreeze] *)

Lemma freeze_walk_frozen (v : value) : isFrozen (freeze_walk v) = true.
Proof. destruct v; reflexivity. Qed.

Lemma deep_frozen_is_frozen (v : value) :
  deep_frozen v = true -> isFrozen v = true.
Proof.
  destruct v; simpl; auto; intros H; apply andb_true_iff in H; tauto.
Qed.

Lemma freeze_child_again (x : value) :
  let f := fun value =>
    if typeof_object value && negb (isFrozen value)
    then freeze_walk value else value in
  f (f x) = f x.
Proof.
  simpl. destruct (typeof_object x && negb (isFrozen x)) eqn:Hgo.
  - rewrite freeze_walk_frozen. rewrite andb_false_r. reflexivity.
  - rewrite Hgo. reflexivity.
Qed.

Lemma freeze_walk_idempotent (v : value) :
  freeze_walk (freeze_walk v) = freeze_walk v.
Proof.
  destruct v as [| | | | |a fr l|a fr l]; simpl; try reflexivity.
  - f_equal. rewrite map_map. apply map_ext. intros x.
    apply (freeze_child_again x).
  - f_equal. rewrite map_map. apply map_ext. intros [k x]. simpl.
    f_equal. apply (freeze_child_again x).
Qed.

Lemma freeze_walk_fixes_frozen (v : value) :
  deep_frozen v = true -> freeze_walk v = v.
Proof.
  destruct v as [| | | | |a fr l|a fr l]; simpl; try reflexivity; intros H;
    apply andb_true_iff in H; destruct H as [-> Hl];
    rewrite forallb_forall in Hl; f_equal.
  - rewrite <- (map_id l) at 2. apply map_ext_in. intros x Hx.
    rewrite (deep_frozen_is_frozen x (Hl x Hx)), andb_false_r. reflexivity.
  - rewrite <- (map_id l) at 2. apply map_ext_in. intros [k x] Hx. simpl.
    rewrite (deep_frozen_is_frozen x (Hl (k, x) Hx)), andb_false_r.
    reflexivity.
Qed.

(** X5: [deepFreeze] throws exactly on [null] and [undefined]; on any other
    value it leaves the value itself frozen, running it again changes
    nothing more, and a tree that is deeply frozen already is left exactly
    as it is. *)
Theorem deepFreeze_idempotent (v : value) :
  is_ok (deepFreeze v) = negb (is_nullish v) /\
  (forall t, deepFreeze v = Ok t ->
     isFrozen t = true /\ deepFreeze t = Ok t) /\
  (is_nullish v = false -> deep_frozen v = true -> deepFreeze v = Ok v).
Proof.
  unfold deepFreeze. split; [destruct (is_nullish v); reflexivity|]. split.
  - intros t. destruct (is_nullish v) eqn:Hn; [discriminate|].
    intros H. injection H as <-. split; [apply freeze_walk_frozen|].
    assert (Hn' : is_nullish (freeze_walk v) = false)
      by (destruct v; try reflexivity; discriminate).
    rewrite Hn', freeze_walk_idempotent. reflexivity.
  - intros -> Hd. rewrite (freeze_walk_fixes_frozen v Hd). reflexivity.
Qed.

Lemma content_freeze_walk (v : value) : content (freeze_walk v) = content v.
Proof.
  induction v as [| | | | |a fr l IH|a fr l IH] using value_ind; simpl;
    try reflexivity; f_equal; rewrite map_map; apply map_ext_in;
    rewrite Forall_forall in IH.
  - intros x Hx. destruct (typeof_object x && negb (isFrozen x));
      [apply (IH x Hx) | reflexivity].
  - intros [k x] Hx. simpl. f_equal.
    destruct (typeof_object x && negb (isFrozen x));
      [apply (IH (k, x) Hx) | reflexivity].
Qed.

(** X6: [deepFreeze] changes nothing but frozen flags: the tree it leaves
    has the same objects, keys, values and order as the tree it was given. *)
Theorem deepFreeze_keeps_content (v t : value) :
  deepFreeze v = Ok t -> content t = content v.
Proof.
  unfold deepFreeze. destruct (is_nullish v); [discriminate|].
  intros H. injection H as <-. apply content_freeze_walk.
Qed.

Lemma deepFreeze_keeps_content_witness :
  content (freeze_walk shallow_frozen_source) = content shallow_frozen_source.
Proof.
  exact (deepFreeze_keeps_content shallow_frozen_source
           (freeze_walk shallow_frozen_source) eq_refl).
Defined.

(** ** More on file sources *)

Lemma split_on_suffix (delim : ascii -> bool) (p : string) (c : ascii)
  (e : string) :
  delim c = true ->
  exists h t,
    split_on delim (p ++ String c e) = ((h :: t) ++ split_on delim e)%list.
Proof.
  intros Hc. induction p as [|x r (h & t & IH)]; simpl.
  - rewrite Hc. exists EmptyString, []. reflexivity.
  - destruct (delim x).
    + rewrite IH. exists EmptyString, (h :: t). reflexivity.
    + rewrite IH. exists (String x h), t. reflexivity.
Qed.

(** X7: the extension is what follows the last dot of the path, and a path
    without a dot is its own extension. *)
Theorem extension_after_last_dot (p e : string) :
  delimiter_free (Ascii.eqb ".") e = true ->
  extension (p ++ "." ++ e) = e /\ extension e = e.
Proof.
  intros He. unfold extension.
  rewrite (split_on_delimiter_free _ _ He). split; [|reflexivity].
  destruct (split_on_suffix (Ascii.eqb ".") p "." e eq_refl) as (h & t & H).
  change (p ++ "." ++ e) with (p ++ String "." e).
  rewrite H, (split_on_delimiter_free _ _ He).
  rewrite last_last. reflexivity.
Qed.

Lemma extension_after_last_dot_witness :
  extension ("conf.d/app.config" ++ "." ++ "yaml") = "yaml" /\
  extension "yaml" = "yaml".
Proof. exact (extension_after_last_dot "conf.d/app.config" "yaml" eq_refl). Defined.

(** X8: [loadFromFile] fails in three ways and no other: the read fails, or
    the file is read and the decoder of its json, yaml, yml or toml
    extension fails, or the file is read and its extension is none of the
    five known ones; the error is that of the read, that of the decoder, or
    the unsupported-format error. *)
Theorem loadFromFile_fails_iff (w : World) (addr : nat) (filePath : string)
  (e : error) :
  loadFromFile w addr filePath = Err e <->
  readFile w filePath = Err e \/
  exists fileContent,
    readFile w filePath = Ok fileContent /\
    ((exists decode,
        strict_decoder w (extension filePath) = Some decode /\
        decode fileContent = Err e) \/
     (recognized (extension filePath) = false /\
      e = UnsupportedFormat (extension filePath))).
Proof.
  unfold loadFromFile, strict_decoder, recognized.
  destruct (readFile w filePath) as [fileContent|e0]; cbn [bind].
  2:{ split; [intros H; left; injection H as ->; reflexivity|].
      intros [H|(fc & H & _)]; [injection H as ->; reflexivity | discriminate]. }
  destruct (String.eqb (extension filePath) "json") eqn:Hjson; simpl.
  { split.
    - intros H. right. exists fileContent. split; [reflexivity|]. left. eauto.
    - intros [H|(fc & Hfc & [(decode & Hd & He)|[Hr _]])]; try discriminate.
      injection Hfc as <-. injection Hd as <-. exact He. }
  destruct (String.eqb (extension filePath) "yaml"
            || String.eqb (extension filePath) "yml") eqn:Hyaml.
  { split.
    - intros H. right. exists fileContent. split; [reflexivity|]. left. eauto.
    - intros [H|(fc & Hfc & [(decode & Hd & He)|[Hr _]])]; try discriminate.
      injection Hfc as <-. injection Hd as <-. exact He. }
  simpl.
  destruct (String.eqb (extension filePath) "toml") eqn:Htoml; simpl.
  { split.
    - intros H. right. exists fileContent. split; [reflexivity|]. left. eauto.
    - intros [H|(fc & Hfc & [(decode & Hd & He)|[Hr _]])]; try discriminate.
      injection Hfc as <-. injection Hd as <-. exact He. }
  destruct (String.eqb (extension filePath) "js") eqn:Hjs.
  { split.
    - destruct (import w _) as [[v|[v|e1]]|e1]; simpl; discriminate.
    - intros [H|(fc & Hfc & [(decode & Hd & He)|[Hr _]])]; discriminate. }
  split.
  - intros H. injection H as <-. right. exists fileContent.
    split; [reflexivity|]. right. split; reflexivity.
  - intros [H|(fc & Hfc & [(decode & Hd & He)|[_ ->]])];
      try discriminate. reflexivity.
Qed.

Lemma resolve_inline (w : World) (l : list value) :
  forallb (fun s => negb (is_file s)) l = true ->
  forall addr, Promise_all (resolve_from w addr l) = Ok l.
Proof.
  induction l as [|s r IH]; intros Hl addr; simpl; [reflexivity|].
  simpl in Hl. apply andb_true_iff in Hl. destruct Hl as [Hs Hr].
  rewrite (IH Hr (S addr)).
  destruct s; try reflexivity. discriminate.
Qed.

(** X9: a pass over sources none of which is a string resolves every source
    to itself and reads nothing: it settles the same way in every world. *)
Theorem inline_sources_need_no_world (w w' : World) (addr : nat)
  (c : Config) (p : Pending) :
  loadConfigsPromise c = Some p ->
  forallb (fun s => negb (is_file s)) (loadingSources p) = true ->
  Promise_all (resolve_from w addr (loadingSources p)) =
    Ok (loadingSources p) /\
  settle w addr c = settle w' addr c.
Proof.
  intros Hp Hl. split; [apply resolve_inline, Hl|].
  unfold settle. rewrite Hp.
  rewrite (resolve_inline w _ Hl addr), (resolve_inline w' _ Hl addr).
  reflexivity.
Qed.

Lemma inline_sources_need_no_world_witness :
  let c := pending_over false (obj 0 []) [obj 1 [("a", num 1)]] in
  settle sample_world 20 c =
  settle {| readFile := fun _ => Err (ReadFailure "EIO");
            JSON_parse := JSON_parse sample_world;
            yaml_parse := yaml_parse sample_world;
            toml_parse := toml_parse sample_world;
            import := import sample_world |} 20 c.
Proof.
  intros c.
  exact (proj2 (inline_sources_need_no_world sample_world _ 20 c
                  {| handle := 3; loadingSources := [obj 1 [("a", num 1)]] |}
                  eq_refl eq_refl)).
Defined.

(** ** More on the life cycle *)

Lemma ready_is_permanent_witness :
  ready (run (ready_with nested_tree)
           [CallAddSource [VStr "broken.json"]; Settles sample_world 20;
            CallRemoveSource (VStr "missing.yaml"); CallLoadConfigs;
            Settles sample_world 30]) = true.
Proof.
  exact (ready_is_permanent
           [CallAddSource [VStr "broken.json"]; Settles sample_world 20;
            CallRemoveSource (VStr "missing.yaml"); CallLoadConfigs;
            Settles sample_world 30] (ready_with nested_tree) eq_refl).
Defined.

Lemma addSource_sources (c : Config) (l : list value) :
  sources (fst (addSource c l)) = (sources c ++ l)%list.
Proof.
  unfold addSource. simpl. destruct (ready c); [|reflexivity].
  unfold loadConfigs. simpl. destruct (loadConfigsPromise c); reflexivity.
Qed.

(** X10: [addSource] puts the new sources at the end of the list, in the
    order given and behind every source that was there; it touches neither
    the published tree nor the readiness flag; it calls [loadConfigs()]
    exactly when the instance is ready, and the pass this starts on an
    instance with nothing pending walks over the old sources followed by
    the new ones. *)
Theorem addSource_appends (c : Config) (newSources : list value) :
  sources (fst (addSource c newSources)) = (sources c ++ newSources)%list /\
  mergedConfigs (fst (addSource c newSources)) = mergedConfigs c /\
  ready (fst (addSource c newSources)) = ready c /\
  (snd (addSource c newSources) <> None <-> ready c = true) /\
  (ready c = true -> loadConfigsPromise c = None ->
   loadConfigsPromise (fst (addSource c newSources)) =
     Some {| handle := fanouts c;
             loadingSources := (sources c ++ newSources)%list |} /\
   snd (addSource c newSources) = Some (fanouts c)).
Proof.
  split; [apply addSource_sources|].
  split; [apply untouched_by_calls|].
  unfold addSource. simpl. destruct (ready c) eqn:Hr.
  - unfold loadConfigs. simpl.
    destruct (loadConfigsPromise c) eqn:Hp; simpl;
      (split; [exact Hr|]); (split; [split; [reflexivity|discriminate]|]);
      intros _ H; [discriminate | split; reflexivity].
  - simpl. split; [exact Hr|]. split; [|discriminate].
    split; [intros H; contradiction | discriminate].
Qed.

Lemma settle_reads (w : World) (addr : nat) (c c' : Config) :
  loadConfigsPromise c' = loadConfigsPromise c ->
  ready c' = ready c ->
  mergedConfigs c' = mergedConfigs c ->
  snd (settle w addr c') = snd (settle w addr c) /\
  mergedConfigs (fst (settle w addr c')) = mergedConfigs (fst (settle w addr c)) /\
  ready (fst (settle w addr c')) = ready (fst (settle w addr c)).
Proof.
  intros Hp Hr Hm. unfold settle. rewrite Hp.
  destruct (loadConfigsPromise c) as [p|]; [|simpl; auto].
  destruct (Promise_all (resolve_from w addr (loadingSources p))) as [vs|e];
    [|simpl; auto].
  unfold publish.
  destruct (deepFreeze (merge vs (addr + length (loadingSources p))));
    simpl; auto.
Qed.

Lemma call_keeps_pending (c : Config) (p : Pending) (e : event) :
  is_call e = true ->
  loadConfigsPromise c = Some p ->
  loadConfigsPromise (fire c e) = Some p /\
  fanouts (fire c e) = fanouts c /\
  ready (fire c e) = ready c /\
  mergedConfigs (fire c e) = mergedConfigs c.
Proof.
  intros He Hp. destruct e as [|l|x|w addr]; simpl; try discriminate.
  - rewrite (loadConfigs_pending c p Hp). simpl. repeat split. exact Hp.
  - unfold addSource.
    set (c1 := with_sources c (sources c ++ l)).
    assert (Hp1 : loadConfigsPromise c1 = Some p) by exact Hp.
    rewrite (loadConfigs_pending c1 p Hp1).
    destruct (ready c1) eqn:Hr1; simpl; repeat split; exact Hp.
  - unfold removeSource.
    set (c1 := if (indexOf (sources c) x >=? 0)%Z
               then with_sources c (splice1 (Z.to_nat (indexOf (sources c) x))
                                      (sources c))
               else c).
    assert (H1 : loadConfigsPromise c1 = Some p /\ fanouts c1 = fanouts c /\
                 ready c1 = ready c /\ mergedConfigs c1 = mergedConfigs c)
      by (unfold c1; destruct (indexOf (sources c) x >=? 0)%Z; simpl;
          repeat split; exact Hp).
    destruct H1 as (Hp1 & Hf1 & Hr1 & Hm1).
    rewrite (loadConfigs_pending c1 p Hp1).
    destruct (ready c1) eqn:E; cbn [fst snd]; repeat split; congruence.
Qed.

(** X11: while a pass is pending, calls of [loadConfigs], [addSource] and
    [removeSource] neither start another pass nor change the sources the
    pending pass walks over: however many such calls are made, the pass
    settles with the same outcome and publishes the same tree as if none
    had been made, so a source added or removed meanwhile is not reflected
    by it. *)
Theorem pending_pass_ignores_later_changes (w : World) (addr : nat)
  (c : Config) (p : Pending) (es : list event) :
  loadConfigsPromise c = Some p ->
  forallb is_call es = true ->
  loadConfigsPromise (run c es) = Some p /\
  fanouts (run c es) = fanouts c /\
  snd (settle w addr (run c es)) = snd (settle w addr c) /\
  mergedConfigs (fst (settle w addr (run c es))) =
    mergedConfigs (fst (settle w addr c)) /\
  ready (fst (settle w addr (run c es))) = ready (fst (settle w addr c)).
Proof.
  intros Hp Hes.
  assert (H : loadConfigsPromise (run c es) = Some p /\
              fanouts (run c es) = fanouts c /\
              ready (run c es) = ready c /\
              mergedConfigs (run c es) = mergedConfigs c).
  { revert c Hp. induction es as [|e r IH]; intros c Hp; simpl; [auto|].
    simpl in Hes. apply andb_true_iff in Hes. destruct Hes as [He Hr].
    destruct (call_keeps_pending c p e He Hp) as (Hp1 & Hf1 & Hr1 & Hm1).
    destruct (IH Hr (fire c e) Hp1) as (Hp2 & Hf2 & Hr2 & Hm2).
    repeat split; congruence. }
  destruct H as (Hp' & Hf' & Hr' & Hm').
  split; [exact Hp'|]. split; [exact Hf'|].
  apply settle_reads; congruence.
Qed.

Lemma pending_pass_ignores_later_changes_witness :
  let c := pending_over true nested_tree [obj 1 [("a", num 1)]] in
  let es := [CallAddSource [obj 2 [("b", num 2)]]; CallLoadConfigs] in
  sources (run c es) = [obj 1 [("a", num 1)]; obj 2 [("b", num 2)]] /\
  mergedConfigs (fst (settle sample_world 20 (run c es))) =
    mergedConfigs (fst (settle sample_world 20 c)).
Proof.
  intros c es. split; [reflexivity|].
  exact (proj1 (proj2 (proj2 (proj2
    (pending_pass_ignores_later_changes sample_world 20 c
       {| handle := 3; loadingSources := [obj 1 [("a", num 1)]] |}
       es eq_refl eq_refl))))).
Defined.

Lemma mutation_before_load (c : Config) (e : event) :
  is_mutation e = true ->
  ready c = false ->
  ready (fire c e) = false /\
  loadConfigsPromise (fire c e) = loadConfigsPromise c /\
  fanouts (fire c e) = fanouts c /\
  mergedConfigs (fire c e) = mergedConfigs c.
Proof.
  intros He Hr. destruct e as [|l|x|w addr]; simpl; try discriminate.
  - unfold addSource. simpl. rewrite Hr. simpl. auto.
  - unfold removeSource.
    destruct (indexOf (sources c) x >=? 0)%Z; simpl; rewrite Hr; simpl; auto.
Qed.

(** X12: on an instance that is not ready, [addSource] and [removeSource]
    only change the list: however many of them are called, no pass is
    started, the instance stays not ready, and [get] keeps failing with the
    not-loaded error until [loadConfigs()] is called and succeeds. *)
Theorem mutations_before_load_start_nothing (E : Engine) (c : Config)
  (es : list event) (path : string) (d : value) :
  ready c = false ->
  forallb is_mutation es = true ->
  ready (run c es) = false /\
  loadConfigsPromise (run c es) = loadConfigsPromise c /\
  fanouts (run c es) = fanouts c /\
  mergedConfigs (run c es) = mergedConfigs c /\
  Config_get E (run c es) path d = Err NotReady.
Proof.
  intros Hr Hes.
  assert (H : ready (run c es) = false /\
              loadConfigsPromise (run c es) = loadConfigsPromise c /\
              fanouts (run c es) = fanouts c /\
              mergedConfigs (run c es) = mergedConfigs c).
  { revert c Hr. induction es as [|e r IH]; intros c Hr; simpl; [auto|].
    simpl in Hes. apply andb_true_iff in Hes. destruct Hes as [He Hrest].
    destruct (mutation_before_load c e He Hr) as (Hr1 & Hp1 & Hf1 & Hm1).
    destruct (IH Hrest (fire c e) Hr1) as (Hr2 & Hp2 & Hf2 & Hm2).
    repeat split; congruence. }
  destruct H as (Hr' & Hp' & Hf' & Hm').
  repeat split; try assumption.
  unfold Config_get. rewrite Hr'. reflexivity.
Qed.

Lemma mutations_before_load_start_nothing_witness :
  let c := Config_new 0 (obj 1 []) [] in
  let es := [CallAddSource [VStr "base.json"];
             CallRemoveSource (obj 1 [])] in
  sources (run c es) = [VStr "base.json"] /\
  fanouts (run c es) = 0 /\
  Config_get sample_engine (run c es) "host" VUndefined = Err NotReady.
Proof.
  intros c es.
  destruct (mutations_before_load_start_nothing sample_engine c es "host"
              VUndefined
              eq_refl eq_refl) as (_ & _ & Hf & _ & Hg).
  split; [reflexivity|]. split; [exact Hf | exact Hg].
Defined.

Lemma remove_first_appended (x : value) (l : list value) :
  (forall y, In y l -> strict_eq y x = false) ->
  remove_first x (l ++ [x])%list = l.
Proof.
  induction l as [|y r IH]; intros H; simpl.
  - rewrite strict_eq_refl. reflexivity.
  - rewrite (H y (or_introl eq_refl)). f_equal. apply IH.
    intros z Hz. apply H. right. exact Hz.
Qed.

(** X13: adding a source that is identical to no entry of the list and then
    removing it gives the list back as it was. *)
Theorem add_then_remove_restores (c : Config) (x : value) :
  (forall y, In y (sources c) -> strict_eq y x = false) ->
  sources (fst (removeSource (fst (addSource c [x])) x)) = sources c.
Proof.
  intros H. rewrite removeSource_sources, addSource_sources.
  apply remove_first_appended, H.
Qed.

Lemma add_then_remove_restores_witness :
  let c := Config_new 0 (obj 1 []) [VStr "base.json"] in
  sources (fst (removeSource (fst (addSource c [VStr "extra.js"]))
                  (VStr "extra.js"))) = sources c.
Proof.
  intros c. apply (add_then_remove_restores c (VStr "extra.js")).
  intros y [<-|[<-|[]]]; reflexivity.
Defined.

Lemma remove_first_counts (x : value) (l : list value) :
  count_identical x (remove_first x l) = pred (count_identical x l) /\
  List.length (remove_first x l) + (if Nat.eqb (count_identical x l) 0 then 0 else 1)
    = List.length l.
Proof.
  induction l as [|y r [IHc IHl]]; simpl; [split; reflexivity|].
  destruct (strict_eq y x) eqn:Hy; simpl.
  - split; [reflexivity | lia].
  - rewrite Hy. simpl. split; [exact IHc | lia].
Qed.

(** X14: [removeSource] takes out one entry at most: when the list holds the
    argument several times, the first of them goes and the others stay. *)
Theorem removeSource_removes_one (c : Config) (source : value) :
  count_identical source (sources (fst (removeSource c source))) =
    pred (count_identical source (sources c)) /\
  List.length (sources (fst (removeSource c source))) +
    (if Nat.eqb (count_identical source (sources c)) 0 then 0 else 1) =
    List.length (sources c) /\
  (forall pre post,
     sources c = (pre ++ source :: post)%list ->
     (forall y, In y pre -> strict_eq y source = false) ->
     sources (fst (removeSource c source)) = (pre ++ post)%list).
Proof.
  rewrite removeSource_sources.
  destruct (remove_first_counts source (sources c)) as [Hc Hl].
  split; [exact Hc|]. split; [exact Hl|].
  intros pre post -> Hpre. clear Hc Hl.
  induction pre as [|y r IH]; simpl.
  - rewrite strict_eq_refl. reflexivity.
  - rewrite (Hpre y (or_introl eq_refl)). f_equal. apply IH.
    intros z Hz. apply Hpre. right. exact Hz.
Qed.

(** ** More on the global instance *)

Lemma content_freeze_in_place (addrs : list nat) (v : value) :
  content (freeze_in_place addrs v) = content v.
Proof.
  induction v as [| | | | |a fr l IH|a fr l IH] using value_ind; simpl;
    try reflexivity; f_equal; rewrite map_map; apply map_ext_in;
    rewrite Forall_forall in IH.
  - intros x Hx. apply (IH x Hx).
  - intros [k x] Hx. simpl. f_equal. apply (IH (k, x) Hx).
Qed.

Lemma settle_sources_content (w : World) (addr : nat) (c : Config) :
  map content (_sources (fst (settle w addr c))) = map content (_sources c).
Proof.
  unfold settle. destruct (loadConfigsPromise c) as [p|]; [|reflexivity].
  destruct (Promise_all (resolve_from w addr (loadingSources p))) as [vs|e];
    [|reflexivity].
  unfold publish.
  destruct (deepFreeze (merge vs (addr + length (loadingSources p))));
    simpl; [|reflexivity].
  rewrite map_map. apply map_ext. intros x. apply content_freeze_in_place.
Qed.

(** X15: [Config.c] throws the not-set error exactly when no instance has
    been installed and the not-loaded error exactly when the installed
    instance is not ready; otherwise it answers the installed instance.
    When the first load of [Config.init] succeeds, [init] answers the new
    instance, which is ready, holds the default followed by the other
    sources (the same objects, keys and values, some of them frozen by the
    load), and is what [Config.c] answers from then on. *)
Theorem Config_init_success (g : Global) (w : World) (addr addr' : nat)
  (defaultConfig : value) (sources : list value) :
  (Config_c g = Err GlobalNotSet <-> _globalConfig g = None) /\
  (Config_c g = Err GlobalNotReady <->
   exists c, _globalConfig g = Some c /\ ready c = false) /\
  (forall c, Config_c g = Ok c <-> _globalConfig g = Some c /\ ready c = true) /\
  (snd (settle w addr'
          (fst (loadConfigs (Config_new addr defaultConfig sources))))
     = Some (0, Ok tt) ->
   let g1 := fst (Config_init g addr defaultConfig sources) in
   exists c,
     snd (Config_init_resume w addr' g1) = Ok c /\
     Config_c (fst (Config_init_resume w addr' g1)) = Ok c /\
     ready c = true /\
     map content (_sources c) =
       map content (_sources (Config_new addr defaultConfig sources))).
Proof.
  split; [|split; [|split]].
  - unfold Config_c. destruct (_globalConfig g) as [c|].
    + destruct (negb (isReady c)); split; discriminate.
    + split; reflexivity.
  - unfold Config_c, isReady. destruct (_globalConfig g) as [c|].
    + destruct (ready c) eqn:Hr; simpl; split.
      * discriminate.
      * intros (c' & Hc & Hr'). injection Hc as <-. congruence.
      * intros _. eauto.
      * reflexivity.
    + split; [discriminate | intros (c & Hc & _); discriminate].
  - intros c. unfold Config_c, isReady. destruct (_globalConfig g) as [c0|].
    + destruct (ready c0) eqn:Hr; simpl; split.
      * intros H. injection H as <-. auto.
      * intros [H _]. injection H as <-. reflexivity.
      * discriminate.
      * intros [H Hr']. injection H as <-. congruence.
    + split; [discriminate | intros [H _]; discriminate].
  - intros Hok g1.
    set (c1 := fst (loadConfigs (Config_new addr defaultConfig sources))) in *.
    assert (Hg1 : g1 = {| _globalConfig := Some c1 |}) by reflexivity.
    rewrite Hg1. unfold Config_init_resume. cbn [_globalConfig].
    pose proof (settle_sources_content w addr' c1) as Hsrc.
    destruct (settle w addr' c1) as [c' settled] eqn:Hs. simpl in Hok.
    subst settled. cbn [fst snd] in *.
    assert (Hr : ready c' = true).
    { unfold settle in Hs.
      assert (Hp : loadConfigsPromise c1 =
                   Some {| handle := 0; loadingSources := _sources c1 |})
        by reflexivity.
      rewrite Hp in Hs. cbn [loadingSources handle] in Hs.
      destruct (Promise_all (resolve_from w addr' (_sources c1)));
        [|discriminate].
      unfold publish in Hs.
      destruct (deepFreeze (merge a (addr' + length (_sources c1))));
        [|discriminate].
      injection Hs as <-. reflexivity. }
    exists c'. unfold Config_c, isReady. cbn [_globalConfig]. rewrite Hr.
    simpl. repeat split. exact Hsrc.
Qed.

Lemma Config_init_success_witness :
  let g1 := fst (Config_init {| _globalConfig := None |} 0
                   (obj 1 [("a", obj 2 [])]) [VStr "base.json"]) in
  Config_c {| _globalConfig := None |} = Err GlobalNotSet /\
  Config_c g1 = Err GlobalNotReady /\
  exists c,
    Config_c (fst (Config_init_resume sample_world 20 g1)) = Ok c /\
    ready c = true /\
    _sources c = [obj 1 [("a", VObj 2 true [])]; VStr "base.json"].
Proof.
  intros g1. split; [reflexivity|]. split; [reflexivity|].
  destruct (Config_init_success {| _globalConfig := None |} sample_world 0 20
              (obj 1 [("a", obj 2 [])]) [VStr "base.json"])
    as (_ & _ & _ & H).
  destruct (H eq_refl) as (c & Hres & Hc & Hr & _).
  exists c. split; [exact Hc|]. split; [exact Hr|].
  injection Hres as <-. reflexivity.
Defined.

(** ** The earlier revision, as a whole *)

Lemma calls_keep_pending (c : Config) (p : Pending) (es : list event) :
  loadConfigsPromise c = Some p ->
  forallb is_call es = true ->
  loadConfigsPromise (run c es) = Some p /\
  fanouts (run c es) = fanouts c /\
  mergedConfigs (run c es) = mergedConfigs c.
Proof.
  revert c. induction es as [|e r IH]; intros c Hp Hes; simpl; [auto|].
  simpl in Hes. apply andb_true_iff in Hes. destruct Hes as [He Hr].
  destruct (call_keeps_pending c p e He Hp) as (Hp1 & Hf1 & _ & Hm1).
  destruct (IH (fire c e) Hp1 Hr) as (Hp2 & Hf2 & Hm2).
  repeat split; congruence.
Qed.

(** X16: in the earlier revision the pending promise outlives its pass: once
    a pass has settled, whatever its outcome, every later call of
    [loadConfigs], [addSource] or [removeSource] is answered with that same
    promise, no other pass is ever started and the published tree never
    changes again. *)
Theorem legacy_never_reloads (lf : string -> result value) (addr : nat)
  (c : Config) (p : Pending) (es : list event) :
  loadConfigsPromise c = Some p ->
  forallb is_call es = true ->
  let c' := fst (Legacy.settle lf addr c) in
  loadConfigsPromise (run c' es) = Some p /\
  fanouts (run c' es) = fanouts c /\
  mergedConfigs (run c' es) = mergedConfigs c' /\
  snd (loadConfigs (run c' es)) = handle p.
Proof.
  intros Hp Hes c'.
  assert (Hp' : loadConfigsPromise c' = Some p)
    by (unfold c'; rewrite Legacy_settle_keeps_pending; exact Hp).
  assert (Hf' : fanouts c' = fanouts c).
  { unfold c', Legacy.settle. rewrite Hp.
    destruct (Promise_all (map (Legacy.resolve lf) (loadingSources p)));
      reflexivity. }
  destruct (calls_keep_pending c' p es Hp' Hes) as (H1 & H2 & H3).
  split; [exact H1|]. split; [congruence|]. split; [exact H3|].
  rewrite (loadConfigs_pending _ p H1). reflexivity.
Qed.

Lemma legacy_never_reloads_witness :
  let c := pending_over false (obj 0 []) [obj 1 [("a", num 1)]] in
  let c' := fst (Legacy.settle (fun _ => Err (ReadFailure "ENOENT")) 20 c) in
  let es := [CallAddSource [obj 2 [("b", num 2)]]; CallLoadConfigs] in
  ready c' = true /\
  fanouts (run c' es) = 4 /\
  mergedConfigs (run c' es) = mergedConfigs c'.
Proof.
  intros c c' es.
  destruct (legacy_never_reloads (fun _ => Err (ReadFailure "ENOENT")) 20 c
              {| handle := 3; loadingSources := [obj 1 [("a", num 1)]] |}
              es eq_refl eq_refl) as (_ & Hf & Hm & _).
  split; [reflexivity|]. split; [exact Hf | exact Hm].
Defined.

(** X17: in the earlier revision [get] on a ready instance answers the
    default for every path without a segment, the empty path included. *)
Theorem legacy_get_without_segment (E : Engine) (c : Config)
  (path : string) (d : value) :
  ready c = true ->
  segments primary_delim path = [] ->
  LegacyClass.Config_get E c path d = Ok (Data d).
Proof.
  intros Hr Hseg. unfold LegacyClass.Config_get. rewrite Hr. simpl.
  assert (H1 : travel E primary_delim (mergedConfigs c) path
               = Ok (Data (mergedConfigs c)))
    by (unfold travel; rewrite Hseg; reflexivity).
  assert (H2 : travel E dotted_delim (mergedConfigs c) path
               = Ok (Data (mergedConfigs c))).
  { unfold travel.
    rewrite (segments_nil_weaken _ _ primary_is_dotted _ Hseg). reflexivity. }
  rewrite (get_of_results E _ _ d _ _ H1 H2). unfold answer. simpl.
  destruct (truthy (mergedConfigs c)); simpl;
    rewrite strict_eq_refl, orb_true_r; reflexivity.
Qed.

Lemma legacy_get_without_segment_witness :
  LegacyClass.Config_get sample_engine (ready_with nested_tree) "" (num 7)
    = Ok (Data (num 7)) /\
  Config_get sample_engine (ready_with nested_tree) "" (num 7)
    = Ok (Data nested_tree).
Proof.
  split; [|reflexivity].
  exact (legacy_get_without_segment sample_engine (ready_with nested_tree) ""
           (num 7) eq_refl eq_refl).
Defined.

(** ** The published tree *)












